(** * TWGameEnv: the TextWorld game environment of [environments/tf_game_env.py]

    A shallow embedding of the command translator ([_conv_to_cmd]), the
    reward function ([_calc_reward]) and the recent-history cache
    ([_update_hash_cache], [_calc_cache_changes]) of the class [TWGameEnv],
    together with the episode life cycle ([__init__], [_reset], [_step])
    around them.

    Python integers are unbounded and are modelled as [Z]; Python lists are
    [list]; Python [str] is [string]; the state dictionary built by
    [_conv_to_state] has a fixed set of keys and is a record.  Exceptions
    are values of [result].  Debug printing has no effect on the state and
    is left out. *)

From stdpp Require Import base tactics option list strings.
From Stdlib Require Import ZArith Lia Ascii.

Local Open Scope Z_scope.

(** ** Python run-time behaviour the source relies on *)

Module Py.

Inductive exn :=
  IndexError | TypeError | AttributeError | ValueError | UnicodeEncodeError.

Inductive result (A : Type) : Type :=
| Ok (a : A)
| Raise (e : exn).
Arguments Ok {A} a.
Arguments Raise {A} e.

#[export] Instance result_ret : MRet result := fun _ a => Ok a.
#[export] Instance result_bind : MBind result := fun _ _ f m =>
  match m with
  | Ok a => f a
  | Raise e => Raise e
  end.

(** [l[i]]: a non-negative index counts from the front, a negative one
    from the back; anything else raises [IndexError]. *)
Definition getitem {A} (l : list A) (i : Z) : result A :=
  let n := Z.of_nat (length l) in
  let j := if 0 <=? i then i else n + i in
  if (0 <=? j) && (j <? n)
  then match l !! Z.to_nat j with
       | Some a => Ok a
       | None => Raise IndexError
       end
  else Raise IndexError.

(** [l.append(x); l.pop(0)]: the list is not empty when [pop(0)] runs, so
    the pair of calls never raises. *)
Definition append_pop0 {A} (l : list A) (x : A) : list A :=
  drop 1 (l ++ [x]).

(** [np.asarray(bs).sum()] of a list of booleans: how many are [True]. *)
Fixpoint np_sum (bs : list bool) : Z :=
  match bs with
  | [] => 0
  | b :: bs' => (if b then 1 else 0) + np_sum bs'
  end.

(** [min([x, y, ...])] of a list literal with first element [x]. *)
Definition min_list (x : Z) (xs : list Z) : Z := foldl Z.min x xs.

(** [s.find(sub)]: the lowest index at which [sub] starts in [s], or -1. *)
Fixpoint find_from (sub s : string) (i : Z) : Z :=
  if String.prefix sub s then i
  else match s with
       | EmptyString => -1
       | String _ s' => find_from sub s' (i + 1)
       end.
Definition find (s sub : string) : Z := find_from sub s 0.

(** [sub in s] on strings. *)
Fixpoint str_in (sub s : string) : bool :=
  String.prefix sub s ||
  match s with
  | EmptyString => false
  | String _ s' => str_in sub s'
  end.

(** [s[:k]]: the first [k] characters, or for a negative [k] all but the
    last [-k]; the bound is clipped to the string. *)
Definition slice_to (s : string) (k : Z) : string :=
  let n := Z.of_nat (String.length s) in
  let j := if 0 <=? k then k else n + k in
  String.substring 0 (Z.to_nat j) s.

End Py.
Import Py.

(** ** Module constants *)

Definition HASH_LIST_LENGTH : nat := 10.

Record RewardDict := {
  win_lose_value : Z;
  max_loop_pun : Z;
  change_reward : Z;
  useless_act_pun : Z;
  verb_in_adm : Z
}.

Definition REWARD_DICT : RewardDict := {|
  win_lose_value := 100;
  max_loop_pun := 5;
  change_reward := 1;
  useless_act_pun := 1;
  verb_in_adm := 1
|}.

(** The [STR_TYPE] of the observation array: byte strings of width 500. *)
Definition STR_WIDTH : Z := 500.

(** ** Data *)

(** The [info] dictionary returned by the TextWorld gym, with the fields
    asked for in [_start_game]. *)
Record Info := {
  info_won : bool;
  info_lost : bool;
  info_description : string;
  info_inventory : string;
  info_admissible_commands : list string;
  info_entities : list string
}.

(** The dictionary built by [_conv_to_state]. *)
Record State := {
  score : Z;
  done : bool;
  won : bool;
  lost : bool;
  obs : string;
  description : string;
  inventory : string;
  admissible_commands : list string;
  entities : list string
}.

Definition _conv_to_state (o : string) (sc : Z) (d : bool) (info : Info) : State := {|
  score := sc;
  done := d;
  won := info_won info;
  lost := info_lost info;
  obs := o;
  description := info_description info;
  inventory := info_inventory info;
  admissible_commands := info_admissible_commands info;
  entities := info_entities info
|}.

(** One element of an array of [dtype="S500"] made from a Python string:
    the text is encoded as ASCII, which raises [UnicodeEncodeError] on a
    character above 127, and cut to the width of the element type; NUL
    characters at its end are not told from the padding. *)
Definition is_ascii (s : string) : bool :=
  forallb (fun c => (N_of_ascii c <? 128)%N) (String.list_ascii_of_string s).

Fixpoint rstrip_nul (s : string) : string :=
  match s with
  | EmptyString => EmptyString
  | String c s' =>
      match rstrip_nul s' with
      | EmptyString =>
          if (N_of_ascii c =? 0)%N then EmptyString else String c EmptyString
      | r => String c r
      end
  end.

Definition to_S500 (s : string) : result string :=
  if is_ascii s then Ok (rstrip_nul (slice_to s STR_WIDTH))
  else Raise UnicodeEncodeError.

(** [np.array([description, inventory], dtype="S500")]. *)
Definition _conv_pass_state (st : State) : result (string * string) :=
  d ← to_S500 (description st);
  i ← to_S500 (inventory st);
  Ok (d, i).

(** An action of the agent: one index when the action space is flattened,
    an index pair (verb, object) otherwise. *)
Inductive Action :=
| Flat (i : Z)
| Pair (v o : Z).

Record BoundedArraySpec := {
  spec_minimum : list Z;
  spec_maximum : list Z
}.

(** [array_spec.BoundedArraySpec(dtype=np.uint16, minimum=...,
    maximum=...)]: the constructor raises [ValueError] when a minimum
    lies above its maximum, and when a bound lies outside the range of the
    dtype, which is [np.uint16] at both places the class makes a spec. *)
Definition UINT16_MAX : Z := 65535.

Definition in_uint16 (x : Z) : bool := (0 <=? x) && (x <=? UINT16_MAX).

Definition new_BoundedArraySpec (minimum maximum : list Z)
    : result BoundedArraySpec :=
  if negb (forallb (fun mM => fst mM <=? snd mM) (zip minimum maximum))
  then Raise ValueError
  else if negb (forallb in_uint16 minimum && forallb in_uint16 maximum)
  then Raise ValueError
  else Ok {| spec_minimum := minimum; spec_maximum := maximum |}.

Inductive StepType := FIRST | MID | LAST.

Record TimeStep := {
  step_type : StepType;
  ts_reward : Z;
  discount : Z;
  observation : string * string
}.

Definition restart (o : string * string) : TimeStep :=
  {| step_type := FIRST; ts_reward := 0; discount := 1; observation := o |}.
Definition transition (o : string * string) (r : Z) : TimeStep :=
  {| step_type := MID; ts_reward := r; discount := 1; observation := o |}.
Definition termination (o : string * string) (r : Z) : TimeStep :=
  {| step_type := LAST; ts_reward := r; discount := 0; observation := o |}.

(** ** What the environment takes from its host *)

(** Python's built-in [hash] on strings; the word files ([_get_words path]
    is the list of stripped lines of the file at [path]); and the TextWorld
    gym: [gym_make] stands for [register_game] followed by [gym.make], and
    [gym_step] returns the new engine and the tuple
    [(obs, score, done, info)]. *)
Class Host := {
  hash : string -> Z;
  _get_words : string -> list string;
  Gym : Type;
  gym_make : string -> Gym;
  gym_reset : Gym -> Gym;
  gym_step : Gym -> string -> Gym * (string * Z * bool * Info)
}.

(** ** The environment class *)

Section TWGameEnv.

Context `{Host}.

Record TWGameEnv := {
  _game_path : string;
  _path_verb : string;
  _path_obj : string;
  _path_badact : string;
  _debug : bool;
  _flatten_actspec : bool;
  _list_verb : list string;
  _list_obj : list string;
  _list_badact : list string;
  _list_verbobj : option (list string);
  _action_spec : BoundedArraySpec;
  _hash_dsc : list Z;
  _hash_inv : list Z;
  curr_TWGym : option Gym;
  _state : option State;
  _episode_ended : bool
}.

(** The list comprehension [[v + " " + o for v in verbs for o in objs]]. *)
Definition verbobj_product (verbs objs : list string) : list string :=
  v ← verbs; o ← objs; [v +:+ " " +:+ o].

Definition __init__ (game_path path_verb path_obj path_badact : string)
    (debug flatten_actspec : bool) : result TWGameEnv :=
  let list_verb := _get_words path_verb in
  let list_obj := _get_words path_obj in
  let list_badact := _get_words path_badact in
  let list_verbobj :=
    if flatten_actspec
    then Some (verbobj_product list_verb list_obj)
    else None in
  action_spec ←
    match list_verbobj with
    | Some vo =>
        new_BoundedArraySpec [0] [Z.of_nat (length vo) - 1]
    | None =>
        new_BoundedArraySpec [0; 0]
          [Z.of_nat (length list_verb) - 1; Z.of_nat (length list_obj) - 1]
    end;
  Ok {| _game_path := game_path;
        _path_verb := path_verb;
        _path_obj := path_obj;
        _path_badact := path_badact;
        _debug := debug;
        _flatten_actspec := flatten_actspec;
        _list_verb := list_verb;
        _list_obj := list_obj;
        _list_badact := list_badact;
        _list_verbobj := list_verbobj;
        _action_spec := action_spec;
        _hash_dsc := replicate HASH_LIST_LENGTH 0;
        _hash_inv := replicate HASH_LIST_LENGTH 0;
        curr_TWGym := None;
        _state := None;
        _episode_ended := false |}.

(** Assignments to the attributes that change after construction. *)
Definition set_game (env : TWGameEnv) (g : Gym) (st : State) : TWGameEnv :=
  {| _game_path := _game_path env; _path_verb := _path_verb env;
     _path_obj := _path_obj env; _path_badact := _path_badact env;
     _debug := _debug env; _flatten_actspec := _flatten_actspec env;
     _list_verb := _list_verb env; _list_obj := _list_obj env;
     _list_badact := _list_badact env; _list_verbobj := _list_verbobj env;
     _action_spec := _action_spec env;
     _hash_dsc := _hash_dsc env; _hash_inv := _hash_inv env;
     curr_TWGym := Some g; _state := Some st;
     _episode_ended := _episode_ended env |}.

Definition set_episode_ended (env : TWGameEnv) (b : bool) : TWGameEnv :=
  {| _game_path := _game_path env; _path_verb := _path_verb env;
     _path_obj := _path_obj env; _path_badact := _path_badact env;
     _debug := _debug env; _flatten_actspec := _flatten_actspec env;
     _list_verb := _list_verb env; _list_obj := _list_obj env;
     _list_badact := _list_badact env; _list_verbobj := _list_verbobj env;
     _action_spec := _action_spec env;
     _hash_dsc := _hash_dsc env; _hash_inv := _hash_inv env;
     curr_TWGym := curr_TWGym env; _state := _state env;
     _episode_ended := b |}.

Definition set_hash (env : TWGameEnv) (dsc inv : list Z) : TWGameEnv :=
  {| _game_path := _game_path env; _path_verb := _path_verb env;
     _path_obj := _path_obj env; _path_badact := _path_badact env;
     _debug := _debug env; _flatten_actspec := _flatten_actspec env;
     _list_verb := _list_verb env; _list_obj := _list_obj env;
     _list_badact := _list_badact env; _list_verbobj := _list_verbobj env;
     _action_spec := _action_spec env;
     _hash_dsc := dsc; _hash_inv := inv;
     curr_TWGym := curr_TWGym env; _state := _state env;
     _episode_ended := _episode_ended env |}.

(** *** Command translation *)

Definition _conv_to_cmd (env : TWGameEnv) (action_ind : Action)
    : result string :=
  if _flatten_actspec env then
    match action_ind, _list_verbobj env with
    | Flat i, Some verbobj => getitem verbobj i
    | _, _ => Raise TypeError
    end
  else
    match action_ind with
    | Pair i0 i1 =>
        verb ← getitem (_list_verb env) i0;
        obj ← (if i1 =? 0 then Ok ""%string
               else getitem (_list_obj env) i1);
        Ok (verb +:+ " " +:+ obj)
    | Flat _ => Raise TypeError
    end.

(** *** The recent-history cache *)

Definition _update_hash_cache (env : TWGameEnv) (curr_state : State)
    : TWGameEnv :=
  let dsc := append_pop0 (_hash_dsc env) (hash (description curr_state)) in
  let inv := append_pop0 (_hash_inv env) (hash (inventory curr_state)) in
  set_hash env dsc inv.

Definition _calc_cache_changes (cache : list Z) : result Z :=
  latest ← getitem cache (-1);
  Ok (np_sum (map (fun x => x =? latest) cache)).

(** *** The reward *)

Definition _find_verb_in_list (verb_str : string) (adm_cmd : list string)
    : bool :=
  let count := np_sum (map (fun adm => str_in verb_str adm) adm_cmd) in
  if 1 <=? count then true else false.

Definition _calc_reward (env : TWGameEnv) (new_state old_state : State)
    (cmd : string) : result Z :=
  let reward := 0 in
  let reward := reward + (score new_state - score old_state) in
  let reward :=
    if np_sum (map (fun elem => str_in elem (obs new_state))
                   (_list_badact env)) =? 0
    then reward
    else reward - useless_act_pun REWARD_DICT in
  inv_change ← _calc_cache_changes (_hash_inv env);
  des_change ← _calc_cache_changes (_hash_dsc env);
  let reward :=
    if (inv_change <=? 1) || (des_change <=? 1)
    then reward + change_reward REWARD_DICT
    else reward - min_list (inv_change - 1)
                           [des_change - 1; max_loop_pun REWARD_DICT] in
  let reward :=
    if won new_state then reward + win_lose_value REWARD_DICT
    else if lost new_state then reward - win_lose_value REWARD_DICT
    else reward in
  let cmd_in_adm :=
    _find_verb_in_list (slice_to cmd (find cmd " "))
                       (admissible_commands new_state) in
  let reward :=
    if cmd_in_adm then reward + verb_in_adm REWARD_DICT else reward in
  Ok reward.

(** *** Episode life cycle *)

Definition _start_game (env : TWGameEnv) : TWGameEnv :=
  let g := gym_reset (gym_make (_game_path env)) in
  let '(g', (o, sc, d, info)) := gym_step g "look" in
  set_game env g' (_conv_to_state o sc d info).

Definition _reset (env : TWGameEnv) : result (TWGameEnv * TimeStep) :=
  let env := set_episode_ended env false in
  let env := _start_game env in
  st ← from_option Ok (Raise TypeError) (_state env);
  pass_state ← _conv_pass_state st;
  Ok (env, restart pass_state).

Definition _step (env : TWGameEnv) (action : Action)
    : result (TWGameEnv * TimeStep) :=
  if _episode_ended env then _reset env
  else
    old_state ← from_option Ok (Raise TypeError) (_state env);
    let env :=
      if done old_state || won old_state || lost old_state
      then set_episode_ended env true else env in
    cmd ← _conv_to_cmd env action;
    g ← from_option Ok (Raise AttributeError) (curr_TWGym env);
    let '(g', (o, sc, d, info)) := gym_step g cmd in
    let new_state := _conv_to_state o sc d info in
    let env := set_game env g' new_state in
    let env := _update_hash_cache env new_state in
    pass_state ← _conv_pass_state new_state;
    reward ← _calc_reward env new_state old_state cmd;
    if _episode_ended env
    then Ok (env, termination pass_state reward)
    else Ok (env, transition pass_state reward).

End TWGameEnv.

(** ** Vocabulary of the properties *)

(** [sub] occurs in [s] as a run of consecutive characters. *)
Definition is_substring (sub s : string) : Prop :=
  exists pre post, s = pre +:+ sub +:+ post.

(** How many entries of [cache] equal [latest]. *)
Definition repeat_count (cache : list Z) (latest : Z) : Z :=
  Z.of_nat (length (filter (fun x => x = latest) cache)).

(** The verb token that [_calc_reward] cuts out of the command. *)
Definition verb_token (cmd : string) : string :=
  slice_to cmd (find cmd " ").

(** The five addends of [_calc_reward], each as the source computes it. *)
Definition score_term (new_state old_state : State) : Z :=
  score new_state - score old_state.

Definition bad_action_term (badact : list string) (new_state : State) : Z :=
  if np_sum (map (fun elem => str_in elem (obs new_state)) badact) =? 0
  then 0 else - useless_act_pun REWARD_DICT.

Definition loop_term (inv_change des_change : Z) : Z :=
  if (inv_change <=? 1) || (des_change <=? 1)
  then change_reward REWARD_DICT
  else - min_list (inv_change - 1) [des_change - 1; max_loop_pun REWARD_DICT].

Definition terminal_term (new_state : State) : Z :=
  if won new_state then win_lose_value REWARD_DICT
  else if lost new_state then - win_lose_value REWARD_DICT
  else 0.

Definition admissibility_term (cmd : string) (new_state : State) : Z :=
  if _find_verb_in_list (verb_token cmd) (admissible_commands new_state)
  then verb_in_adm REWARD_DICT else 0.

(** The flattened translation as a formula on the index:
    [verbs[i // |objs|] + " " + objs[i % |objs|]]. *)
Definition translate_formula (verbs objs : list string) (i : Z)
    : option string :=
  let n := Z.of_nat (length objs) in
  v ← verbs !! Z.to_nat (i / n);
  o ← objs !! Z.to_nat (i mod n);
  Some (v +:+ " " +:+ o).

Section Vocabulary.

Context `{Host}.

(** Both ring buffers hold [HASH_LIST_LENGTH] entries. *)
Definition cache_ok (env : TWGameEnv) : Prop :=
  length (_hash_dsc env) = HASH_LIST_LENGTH /\
  length (_hash_inv env) = HASH_LIST_LENGTH.

(** The flattened command list is the one [__init__] computes from the
    verb and object lists. *)
Definition verbobj_ok (env : TWGameEnv) : Prop :=
  _list_verbobj env =
    if _flatten_actspec env
    then Some (verbobj_product (_list_verb env) (_list_obj env))
    else None.

(** The environments a program can hold: a freshly constructed one, and
    whatever [_reset] and [_step] turn such an environment into. *)
Inductive reachable : TWGameEnv -> Prop :=
| reach_init game_path path_verb path_obj path_badact debug flatten env :
    __init__ game_path path_verb path_obj path_badact debug flatten = Ok env ->
    reachable env
| reach_reset env env' ts :
    reachable env -> _reset env = Ok (env', ts) -> reachable env'
| reach_step env action env' ts :
    reachable env -> _step env action = Ok (env', ts) -> reachable env'.

(** Several turns in a row, as far as the cache is concerned. *)
Definition feed (env : TWGameEnv) (states : list State) : TWGameEnv :=
  foldl _update_hash_cache env states.

(** The texts of the turn earn and cost nothing: no bad-action text occurs
    in the feedback, and the verb is not found in the admissible
    commands. *)
Definition neutral (env : TWGameEnv) (new_state : State) (cmd : string)
    : Prop :=
  (forall elem, elem ∈ _list_badact env ->
     ~ is_substring elem (obs new_state)) /\
  (forall adm, adm ∈ admissible_commands new_state ->
     ~ is_substring (verb_token cmd) adm).

(** [env'] has the vocabulary of [env]. *)
Definition same_vocabulary (env env' : TWGameEnv) : Prop :=
  _flatten_actspec env' = _flatten_actspec env /\
  _list_verb env' = _list_verb env /\
  _list_obj env' = _list_obj env /\
  _list_badact env' = _list_badact env /\
  _list_verbobj env' = _list_verbobj env.

(** The game [_start_game] starts: the gym made for the game file and
    reset, after its answer to "look", and the state made of that
    answer. *)
Definition fresh_game (game_path : string) : Gym * State :=
  let '(g', (o, sc, d, info)) :=
    gym_step (gym_reset (gym_make game_path)) "look" in
  (g', _conv_to_state o sc d info).

(** The state made of the gym's answer to a command. *)
Definition answer_state (g : Gym) (cmd : string) : State :=
  let '(_, (o, sc, d, info)) := gym_step g cmd in
  _conv_to_state o sc d info.

(** What the examples fall back on where a constructor raises. *)
Definition unbuilt : TWGameEnv :=
  {| _game_path := ""; _path_verb := ""; _path_obj := ""; _path_badact := "";
     _debug := false; _flatten_actspec := false;
     _list_verb := []; _list_obj := []; _list_badact := [];
     _list_verbobj := None;
     _action_spec := {| spec_minimum := []; spec_maximum := [] |};
     _hash_dsc := []; _hash_inv := [];
     curr_TWGym := None; _state := None; _episode_ended := false |}.

Definition built (made : result TWGameEnv) : TWGameEnv :=
  match made with
  | Ok env => env
  | Raise _ => unbuilt
  end.

End Vocabulary.

(** ** A small host, for running the definitions *)

Definition demo_info (room : string) : Info := {|
  info_won := false;
  info_lost := false;
  info_description := room;
  info_inventory := "You are carrying nothing.";
  info_admissible_commands := ["go door"; "take key"];
  info_entities := ["door"; "key"]
|}.

Definition demo_host : Host := {|
  hash := fun s => Z.of_nat (String.length s) + 1;
  _get_words := fun path =>
    if String.eqb path "verbs.txt" then ["look"; "go"; "take"]
    else if String.eqb path "objs.txt" then ["EMPTY"; "door"; "key"]
    else if String.eqb path "badact.txt"
         then ["You can't"; "I don't understand"]
    else [];
  Gym := Z;
  gym_make := fun _ => 0;
  gym_reset := fun _ => 0;
  gym_step := fun g cmd => (g + 1, ("Okay."%string, g, false, demo_info "A room."))
|}.

Definition demo_flat : @TWGameEnv demo_host :=
  built (@__init__ demo_host "game.ulx" "verbs.txt" "objs.txt" "badact.txt"
           false true).

Definition demo_pair : @TWGameEnv demo_host :=
  built (@__init__ demo_host "game.ulx" "verbs.txt" "objs.txt" "badact.txt"
           false false).

Definition demo_state (sc : Z) (w : bool) (room inv : string) : State := {|
  score := sc;
  done := w;
  won := w;
  lost := false;
  obs := "Okay.";
  description := room;
  inventory := inv;
  admissible_commands := ["go door"; "take key"];
  entities := ["door"; "key"]
|}.

(** Eleven turns with eleven different room and inventory texts. *)
Definition demo_turn (n : nat) : State :=
  demo_state 0 false
    (String.string_of_list_ascii (replicate n "r"%char))
    (String.string_of_list_ascii (replicate n "i"%char)).

Definition demo_first : State := demo_turn 1.
Definition demo_rest : list State := map demo_turn (seq 2 10).

(** A turn from score 5 to score 8 into a room not seen before, the same
    turn winning the game, and a turn the game answers with a bad-action
    text. *)
Definition demo_old : State :=
  demo_state 5 false "A room." "You are carrying nothing.".
Definition demo_new : State :=
  demo_state 8 false "Kitchen" "You are carrying nothing.".
Definition demo_won : State :=
  demo_state 8 true "Kitchen" "You are carrying nothing.".
Definition demo_bad : State := {|
  score := 5;
  done := false;
  won := false;
  lost := false;
  obs := "You can't go that way. I don't understand that.";
  description := "A room.";
  inventory := "You are carrying nothing.";
  admissible_commands := ["go door"; "take key"];
  entities := ["door"; "key"]
|}.

(** ** Reading the word files *)

Module Words.

(** [c.isspace()] for a character below 256: tab to carriage return, the
    four separators 28 to 31, space, next-line and no-break space. *)
Definition isspace (c : ascii) : bool :=
  let n := N_of_ascii c in
  ((9 <=? n) && (n <=? 13) || (28 <=? n) && (n <=? 32)
   || (n =? 133) || (n =? 160))%N.

Definition is_empty (s : string) : bool :=
  match s with
  | EmptyString => true
  | String _ _ => false
  end.

(** [s.strip()]: white space is dropped from the front and from the back. *)
Fixpoint lstrip (s : string) : string :=
  match s with
  | EmptyString => EmptyString
  | String c s' => if isspace c then lstrip s' else s
  end.

Fixpoint rstrip (s : string) : string :=
  match s with
  | EmptyString => EmptyString
  | String c s' =>
      let r := rstrip s' in
      if isspace c && is_empty r then EmptyString else String c r
  end.

Definition strip (s : string) : string := rstrip (lstrip s).

(** [_get_words] on the lines that iterating over the opened file
    yields: [[item.strip() for item in f]]. *)
Definition _get_words (lines : list string) : list string :=
  map strip lines.

(** A string of white space only. *)
Definition whitespace (s : string) : Prop :=
  Forall (fun c => isspace c = true) (String.list_ascii_of_string s).

End Words.

(** ** Vocabulary of the further properties *)

(** The test [_step] makes on the state it starts from. *)
Definition is_over (st : State) : bool := done st || won st || lost st.

(** The action lies between the minimum and the maximum of the spec,
    component by component. *)
Definition within_spec (spec : BoundedArraySpec) (action : Action) : Prop :=
  match action, spec_minimum spec, spec_maximum spec with
  | Flat i, [lo], [hi] => lo <= i <= hi
  | Pair v o, [lo0; lo1], [hi0; hi1] => lo0 <= v <= hi0 /\ lo1 <= o <= hi1
  | _, _, _ => False
  end.

Section Configuration.

Context `{Host}.

(** [env'] has everything the constructor computed from its arguments as
    [env] has it. *)
Definition same_config (env env' : TWGameEnv) : Prop :=
  _game_path env' = _game_path env /\
  _path_verb env' = _path_verb env /\
  _path_obj env' = _path_obj env /\
  _path_badact env' = _path_badact env /\
  _debug env' = _debug env /\
  _flatten_actspec env' = _flatten_actspec env /\
  _list_verb env' = _list_verb env /\
  _list_obj env' = _list_obj env /\
  _list_badact env' = _list_badact env /\
  _list_verbobj env' = _list_verbobj env /\
  _action_spec env' = _action_spec env.

(** The time step [_step] returns on a running episode, from the state it
    started from, the observation array and the reward. *)
Definition step_result (old_state : State) (pass_state : string * string)
    (r : Z) : TimeStep :=
  if is_over old_state
  then termination pass_state r
  else transition pass_state r.

End Configuration.

(** A word file with padded and blank lines, a host whose verb and
    bad-action files have a blank line, a host whose object file is empty,
    and a host whose game is won by the first command. *)
Definition demo_lines : list string :=
  ["look" +:+ String (ascii_of_nat 10) "";
   "  go " +:+ String (ascii_of_nat 10) "";
   String (ascii_of_nat 10) "";
   String (ascii_of_nat 9) "take key"].

Definition blank_host : Host := {|
  hash := fun s => Z.of_nat (String.length s) + 1;
  _get_words := fun path =>
    if String.eqb path "verbs.txt" then [""; "go"; "pick up"]
    else if String.eqb path "objs.txt" then ["EMPTY"; "door"]
    else if String.eqb path "badact.txt" then [""]
    else [];
  Gym := Z;
  gym_make := fun _ => 0;
  gym_reset := fun _ => 0;
  gym_step := fun g cmd => (g + 1, ("Okay."%string, g, false, demo_info "A room."))
|}.

Definition blank_pair : @TWGameEnv blank_host :=
  built (@__init__ blank_host "game.ulx" "verbs.txt" "objs.txt" "badact.txt"
           false false).


Definition winning_host : Host := {|
  hash := fun s => Z.of_nat (String.length s) + 1;
  _get_words := @_get_words demo_host;
  Gym := Z;
  gym_make := fun _ => 0;
  gym_reset := fun _ => 0;
  gym_step := fun g cmd =>
    (g + 1,
     ("Okay."%string, g, false,
      {| info_won := 0 <? g;
         info_lost := false;
         info_description := "A room.";
         info_inventory := "You are carrying nothing.";
         info_admissible_commands := ["go door"; "take key"];
         info_entities := ["door"; "key"] |}))
|}.

Definition winning_pair : @TWGameEnv winning_host :=
  built (@__init__ winning_host "game.ulx" "verbs.txt" "objs.txt" "badact.txt"
           false false).

(** A room seen between two visits of another one. *)
Definition demo_hall : State :=
  demo_state 5 false "The hall." "You are carrying nothing.".


Definition umlaut_host (from : Z) : Host := {|
  hash := fun s => Z.of_nat (String.length s) + 1;
  _get_words := @_get_words demo_host;
  Gym := Z;
  gym_make := fun _ => 0;
  gym_reset := fun _ => 0;
  gym_step := fun g cmd =>
    (g + 1,
     ("Okay."%string, g, false,
      demo_info (if from <=? g
                 then String "K" (String (ascii_of_nat 252) "che")
                 else "A room.")))
|}.

Definition umlaut_pair (from : Z) : @TWGameEnv (umlaut_host from) :=
  built (@__init__ (umlaut_host from) "game.ulx" "verbs.txt" "objs.txt"
           "badact.txt" false false).

Definition umlaut_started : @TWGameEnv (umlaut_host 1) :=
  match @_reset (umlaut_host 1) (umlaut_pair 1) with
  | Ok (env, _) => env
  | Raise _ => umlaut_pair 1
  end.

(** The environments above after [_reset], and the winning one after its
    first command. *)
Definition demo_started : @TWGameEnv demo_host :=
  match @_reset demo_host demo_pair with
  | Ok (env, _) => env
  | Raise _ => demo_pair
  end.

Definition winning_started : @TWGameEnv winning_host :=
  match @_reset winning_host winning_pair with
  | Ok (env, _) => env
  | Raise _ => winning_pair
  end.

(** ** Facts about the Python operations *)

Lemma bind_Ok {A B} (f : A -> result B) (a : A) : (Ok a ≫= f) = f a.
Proof. reflexivity. Qed.

Lemma bind_Ok_inv {A B} (f : A -> result B) (m : result A) (b : B) :
  (m ≫= f) = Ok b -> exists a, m = Ok a /\ f a = Ok b.
Proof. destruct m as [a|e]; [eauto | discriminate]. Qed.

Lemma getitem_front {A} (l : list A) (i : Z) (a : A) :
  0 <= i -> l !! Z.to_nat i = Some a -> getitem l i = Ok a.
Proof.
  intros Hi Hl. unfold getitem.
  apply lookup_lt_Some in Hl as Hlt.
  destruct (Z.leb_spec 0 i); [|lia].
  destruct (Z.leb_spec 0 i); [|lia].
  destruct (Z.ltb_spec i (Z.of_nat (length l))); [|lia].
  simpl. by rewrite Hl.
Qed.

Lemma getitem_out_of_range {A} (l : list A) (i : Z) :
  Z.of_nat (length l) <= i \/ i < - Z.of_nat (length l) ->
  getitem l i = Raise IndexError.
Proof.
  intros Hi. unfold getitem.
  destruct (Z.leb_spec 0 i).
  - destruct (Z.ltb_spec i (Z.of_nat (length l))); [lia|].
    by rewrite andb_false_r.
  - destruct (Z.leb_spec 0 (Z.of_nat (length l) + i)); [lia|]. reflexivity.
Qed.

Lemma getitem_back {A} (l : list A) (i : Z) :
  - Z.of_nat (length l) <= i < 0 ->
  getitem l i = getitem l (Z.of_nat (length l) + i).
Proof.
  intros Hi. unfold getitem.
  rewrite (proj2 (Z.leb_gt 0 i)) by lia.
  by rewrite !(proj2 (Z.leb_le 0 (Z.of_nat (length l) + i))) by lia.
Qed.

Lemma getitem_in_range {A} (l : list A) (i : Z) :
  - Z.of_nat (length l) <= i < Z.of_nat (length l) ->
  exists a, getitem l i = Ok a.
Proof.
  intros Hi. destruct (decide (0 <= i)) as [Hpos|Hneg].
  - destruct (lookup_lt_is_Some_2 l (Z.to_nat i)) as [a Ha]; [lia|].
    exists a. by apply getitem_front.
  - rewrite getitem_back by lia.
    destruct (lookup_lt_is_Some_2 l (Z.to_nat (Z.of_nat (length l) + i)))
      as [a Ha]; [lia|].
    exists a. apply getitem_front; [lia | done].
Qed.

Lemma getitem_Ok_inv {A} (l : list A) (i : Z) (a : A) :
  getitem l i = Ok a ->
  - Z.of_nat (length l) <= i < Z.of_nat (length l) /\ a ∈ l.
Proof.
  intros Hg.
  destruct (decide (Z.of_nat (length l) <= i \/ i < - Z.of_nat (length l)))
    as [Hout|Hin].
  { rewrite getitem_out_of_range in Hg by done. discriminate. }
  split; [lia|]. unfold getitem in Hg.
  destruct (_ && _); [|discriminate].
  destruct (l !! _) eqn:Hl; [|discriminate].
  injection Hg as <-. by eapply list_elem_of_lookup_2.
Qed.

Lemma getitem_latest {A} (l : list A) (x : A) :
  getitem (l ++ [x]) (-1) = Ok x.
Proof.
  rewrite getitem_back by (rewrite length_app; simpl; lia).
  apply getitem_front; rewrite length_app; simpl; [lia|].
  replace (Z.to_nat (Z.of_nat (length l + 1) + -1)) with (length l) by lia.
  by rewrite lookup_app_r, Nat.sub_diag.
Qed.

Lemma np_sum_nonneg (bs : list bool) : 0 <= np_sum bs.
Proof. induction bs as [|[] bs IH]; simpl; lia. Qed.

Lemma np_sum_app (bs cs : list bool) :
  np_sum (bs ++ cs) = np_sum bs + np_sum cs.
Proof. induction bs as [|b bs IH]; simpl; lia. Qed.

Lemma np_sum_zero {A} (f : A -> bool) (l : list A) :
  np_sum (map f l) = 0 <-> forall x, x ∈ l -> f x = false.
Proof.
  induction l as [|y l IH]; simpl.
  - split; [|done]. intros _ x Hx. by apply elem_of_nil in Hx.
  - pose proof (np_sum_nonneg (map f l)) as Hnn. split.
    + intros Hs x Hx. destruct (f y) eqn:Hy; [lia|].
      apply elem_of_cons in Hx as [->|Hx]; [done|].
      apply IH; [lia | done].
    + intros Hall. rewrite (Hall y) by apply list_elem_of_here.
      apply IH. intros x Hx. apply Hall. by apply list_elem_of_further.
Qed.

Lemma np_sum_pos {A} (f : A -> bool) (l : list A) :
  1 <= np_sum (map f l) <-> exists x, x ∈ l /\ f x = true.
Proof.
  induction l as [|y l IH]; simpl.
  - split; [lia | intros (x & Hx & _); by apply elem_of_nil in Hx].
  - pose proof (np_sum_nonneg (map f l)) as Hnn. split.
    + intros Hs. destruct (f y) eqn:Hy.
      * exists y. split; [apply list_elem_of_here | done].
      * destruct (proj1 IH) as (x & Hx & Hfx); [lia|].
        exists x. split; [by apply list_elem_of_further | done].
    + intros (x & Hx & Hfx). apply elem_of_cons in Hx as [->|Hx].
      * rewrite Hfx. lia.
      * assert (1 <= np_sum (map f l)) by (apply IH; eauto).
        destruct (f y); lia.
Qed.

Lemma np_sum_count (cache : list Z) (latest : Z) :
  np_sum (map (fun x => x =? latest) cache) = repeat_count cache latest.
Proof.
  unfold repeat_count. induction cache as [|y cache IH]; [done|].
  simpl. rewrite filter_cons, IH.
  destruct (Z.eqb_spec y latest); case_decide; try done; simpl; lia.
Qed.

Lemma min_list_3 (a b c : Z) : min_list a [b; c] = Z.min a (Z.min b c).
Proof. unfold min_list. simpl. lia. Qed.

(** *** Strings *)

Lemma prefix_app_iff (p s : string) :
  String.prefix p s = true <-> exists t, s = p +:+ t.
Proof.
  revert s. induction p as [|a p IH]; intros [|b s]; simpl.
  - split; [by exists ""%string | done].
  - split; [by exists (String b s) | done].
  - split; [done | intros [t Ht]; discriminate].
  - destruct (Ascii.ascii_dec a b) as [->|Hne].
    + rewrite IH. split; intros [t Ht]; exists t; [by rewrite Ht|].
      by injection Ht.
    + split; [done | intros [t Ht]; by injection Ht].
Qed.

Lemma str_in_spec (sub s : string) :
  str_in sub s = true <-> is_substring sub s.
Proof.
  unfold is_substring.
  induction s as [|c s IH]; cbn [str_in]; rewrite orb_true_iff, prefix_app_iff.
  - split.
    + intros [[t Ht]|?]; [|done]. exists ""%string, t. done.
    + intros ([|? pre] & post & Hs); [|discriminate]. left. eauto.
  - rewrite IH. split.
    + intros [[t Ht]|(pre & post & Hs)].
      * exists ""%string, t. done.
      * exists (String c pre), post. simpl. by rewrite Hs.
    + intros ([|c' pre] & post & Hs); [left; eauto|].
      right. exists pre, post. simpl in Hs. by injection Hs.
Qed.

Lemma str_in_false (sub s : string) :
  str_in sub s = false <-> ~ is_substring sub s.
Proof. rewrite <- str_in_spec. by destruct (str_in sub s). Qed.

Lemma find_from_first (sep : Ascii.ascii) (verb rest : string) (i : Z) :
  ~ is_substring (String sep "") verb ->
  find_from (String sep "") (verb +:+ String sep "" +:+ rest) i
  = i + Z.of_nat (String.length verb).
Proof.
  revert i. induction verb as [|c verb IH]; intros i Hno; simpl.
  - destruct (Ascii.ascii_dec sep sep); [|done].
    destruct rest; simpl; lia.
  - destruct (Ascii.ascii_dec sep c) as [->|Hne].
    + destruct Hno. exists ""%string, verb. done.
    + rewrite IH; [lia|]. intros (pre & post & Hv). apply Hno.
      exists (String c pre), post. simpl. by rewrite Hv.
Qed.

Lemma substring_app_length (verb rest : string) :
  String.substring 0 (String.length verb) (verb +:+ rest) = verb.
Proof.
  induction verb as [|c verb IH]; simpl.
  - by destruct rest.
  - by rewrite IH.
Qed.

(** The token cut out of a command is what stands before its first
    space. *)
Lemma verb_token_first_space (verb rest : string) :
  ~ is_substring " " verb ->
  verb_token (verb +:+ " " +:+ rest) = verb.
Proof.
  intros Hno. unfold verb_token, find.
  rewrite (find_from_first _ verb rest 0 Hno).
  unfold slice_to. cbv zeta.
  rewrite (proj2 (Z.leb_le 0 _)) by lia.
  replace (Z.to_nat _) with (String.length verb) by lia.
  apply substring_app_length.
Qed.

Lemma first_space_split (s : string) :
  is_substring " " s ->
  exists verb rest, s = verb +:+ " " +:+ rest /\ ~ is_substring " " verb.
Proof.
  induction s as [|c s IH]; intros (pre & post & Hs).
  - destruct pre; discriminate.
  - destruct (Ascii.ascii_dec c " "%char) as [->|Hne].
    + exists ""%string, s. split; [done|].
      intros (p & q & Hpq). destruct p; discriminate.
    + destruct pre as [|c' pre]; simpl in Hs; injection Hs as Hc Hs;
        [by destruct Hne|].
      destruct IH as (verb & rest & -> & Hno); [by exists pre, post|].
      exists (String c verb), rest. split; [done|].
      intros ([|c'' p] & q & Hpq); simpl in Hpq; injection Hpq as Hc' Hpq.
      * by destruct Hne.
      * apply Hno. by exists p, q.
Qed.

(** ** The recent-history cache *)

Section Cache.

Context `{Host}.

Lemma append_pop0_length {A} (l : list A) (x : A) :
  length (append_pop0 l x) = length l.
Proof.
  unfold append_pop0. rewrite length_drop, length_app. simpl. lia.
Qed.

Lemma append_pop0_fifo {A} (l : list A) (x : A) :
  l <> [] -> append_pop0 l x = drop 1 l ++ [x].
Proof. unfold append_pop0. by destruct l. Qed.

Lemma foldl_append_pop0 {A} (l xs : list A) :
  foldl append_pop0 l xs = drop (length xs) (l ++ xs).
Proof.
  revert l. induction xs as [|x xs IH]; intros l; simpl.
  - by rewrite app_nil_r.
  - rewrite IH. unfold append_pop0.
    destruct l as [|y l]; simpl; [done|].
    by rewrite drop_0, <- app_assoc.
Qed.

(** A buffer fed at least as many values as it holds keeps the last of
    them and nothing else. *)
Lemma ring_keeps_last {A} (cache xs : list A) :
  (length cache <= length xs)%nat ->
  drop (length xs) (cache ++ xs) = drop (length xs - length cache) xs.
Proof.
  intros Hlen.
  replace (length xs) with (length cache + (length xs - length cache))%nat
    at 1 by lia.
  by rewrite <- drop_drop, drop_app_length.
Qed.

Lemma hash_dsc_update (env : TWGameEnv) (st : State) :
  _hash_dsc (_update_hash_cache env st)
  = append_pop0 (_hash_dsc env) (hash (description st)).
Proof. reflexivity. Qed.

Lemma hash_inv_update (env : TWGameEnv) (st : State) :
  _hash_inv (_update_hash_cache env st)
  = append_pop0 (_hash_inv env) (hash (inventory st)).
Proof. reflexivity. Qed.

Lemma hash_dsc_feed (env : TWGameEnv) (states : list State) :
  _hash_dsc (feed env states)
  = drop (length states)
         (_hash_dsc env ++ map (fun st => hash (description st)) states).
Proof.
  unfold feed. revert env.
  induction states as [|st states IH]; intros env; simpl.
  - by rewrite app_nil_r.
  - rewrite IH, hash_dsc_update. unfold append_pop0.
    destruct (_hash_dsc env) as [|y l]; simpl; [done|].
    by rewrite drop_0, <- app_assoc.
Qed.

Lemma hash_inv_feed (env : TWGameEnv) (states : list State) :
  _hash_inv (feed env states)
  = drop (length states)
         (_hash_inv env ++ map (fun st => hash (inventory st)) states).
Proof.
  unfold feed. revert env.
  induction states as [|st states IH]; intros env; simpl.
  - by rewrite app_nil_r.
  - rewrite IH, hash_inv_update. unfold append_pop0.
    destruct (_hash_inv env) as [|y l]; simpl; [done|].
    by rewrite drop_0, <- app_assoc.
Qed.

(** What a constructor that returns has set. *)
Lemma __init___returns gp pv po pb dbg fl (env : TWGameEnv) :
  __init__ gp pv po pb dbg fl = Ok env ->
  (_game_path env = gp /\ _path_verb env = pv /\ _path_obj env = po /\
   _path_badact env = pb /\ _debug env = dbg /\ _flatten_actspec env = fl) /\
  (_list_verb env = _get_words pv /\ _list_obj env = _get_words po /\
   _list_badact env = _get_words pb /\
   _list_verbobj env =
     if fl then Some (verbobj_product (_get_words pv) (_get_words po))
     else None) /\
  (_hash_dsc env = replicate HASH_LIST_LENGTH 0 /\
   _hash_inv env = replicate HASH_LIST_LENGTH 0 /\
   curr_TWGym env = None /\ _state env = None /\
   _episode_ended env = false) /\
  (if fl
   then new_BoundedArraySpec [0]
          [Z.of_nat (length (verbobj_product (_get_words pv) (_get_words po)))
           - 1]
   else new_BoundedArraySpec [0; 0]
          [Z.of_nat (length (_get_words pv)) - 1;
           Z.of_nat (length (_get_words po)) - 1]) = Ok (_action_spec env).
Proof.
  unfold __init__. intros Hi.
  apply bind_Ok_inv in Hi as (spec & Hspec & [= <-]).
  split_and!; try done. by destruct fl.
Qed.

Lemma cache_ok_init gp pv po pb dbg fl (env : TWGameEnv) :
  __init__ gp pv po pb dbg fl = Ok env -> cache_ok env.
Proof.
  intros Hi. destruct (__init___returns _ _ _ _ _ _ _ Hi)
    as (_ & _ & (Hd & Hv & _) & _).
  split; [rewrite Hd | rewrite Hv]; apply length_replicate.
Qed.

Lemma cache_ok_update (env : TWGameEnv) (st : State) :
  cache_ok env -> cache_ok (_update_hash_cache env st).
Proof.
  intros [Hd Hi]. split.
  - by rewrite hash_dsc_update, append_pop0_length.
  - by rewrite hash_inv_update, append_pop0_length.
Qed.

Lemma cache_ok_nonempty (env : TWGameEnv) :
  cache_ok env -> _hash_dsc env <> [] /\ _hash_inv env <> [].
Proof.
  intros [Hd Hi].
  split; intros E; rewrite E in *; discriminate.
Qed.

(** *** What the life cycle does to the cache *)

Lemma _start_game_hash (env : TWGameEnv) :
  _hash_dsc (_start_game env) = _hash_dsc env /\
  _hash_inv (_start_game env) = _hash_inv env.
Proof.
  unfold _start_game.
  by destruct (gym_step _ _) as [g' [[[o sc] d] info]].
Qed.

Lemma _start_game_state (env : TWGameEnv) :
  exists st, _state (_start_game env) = Some st.
Proof.
  unfold _start_game.
  destruct (gym_step _ _) as [g' [[[o sc] d] info]]. simpl. eauto.
Qed.

Lemma _start_game_flag (env : TWGameEnv) :
  _episode_ended (_start_game env) = _episode_ended env.
Proof.
  unfold _start_game.
  by destruct (gym_step _ _) as [g' [[[o sc] d] info]].
Qed.

Lemma _start_game_fresh (env : TWGameEnv) :
  curr_TWGym (_start_game env) = Some (fresh_game (_game_path env)).1 /\
  _state (_start_game env) = Some (fresh_game (_game_path env)).2.
Proof.
  unfold _start_game, fresh_game.
  by destruct (gym_step _ _) as [g' [[[o sc] d] info]].
Qed.

Lemma _reset_fresh (env env' : TWGameEnv) (ts : TimeStep) :
  _reset env = Ok (env', ts) ->
  curr_TWGym env' = Some (fresh_game (_game_path env)).1 /\
  _state env' = Some (fresh_game (_game_path env)).2 /\
  exists pass_state,
    _conv_pass_state (fresh_game (_game_path env)).2 = Ok pass_state /\
    ts = restart pass_state.
Proof.
  unfold _reset. intros Hr.
  destruct (_start_game_fresh (set_episode_ended env false)) as [Hg Hst].
  rewrite Hst in Hr. simpl in Hr.
  apply bind_Ok_inv in Hr as (ps & Hps & [= <- <-]).
  split_and!; [exact Hg | exact Hst | by exists ps].
Qed.

Lemma _reset_outcome (env : TWGameEnv) :
  (forall pass_state,
     _conv_pass_state (fresh_game (_game_path env)).2 = Ok pass_state ->
     exists env', _reset env = Ok (env', restart pass_state)) /\
  (forall e,
     _conv_pass_state (fresh_game (_game_path env)).2 = Raise e ->
     _reset env = Raise e).
Proof.
  destruct (_start_game_fresh (set_episode_ended env false)) as [_ Hst].
  split.
  - intros ps Hps. eexists. unfold _reset. rewrite Hst. simpl.
    change (_game_path (set_episode_ended env false)) with (_game_path env).
    by rewrite Hps.
  - intros e He. unfold _reset. rewrite Hst. simpl.
    change (_game_path (set_episode_ended env false)) with (_game_path env).
    by rewrite He.
Qed.

Lemma _reset_returns (env env' : TWGameEnv) (ts : TimeStep) :
  _reset env = Ok (env', ts) ->
  env' = _start_game (set_episode_ended env false) /\
  exists st pass_state,
    _state env' = Some st /\ _conv_pass_state st = Ok pass_state /\
    ts = restart pass_state.
Proof.
  unfold _reset. intros Hr.
  apply bind_Ok_inv in Hr as (st & Hst & Hr).
  apply bind_Ok_inv in Hr as (ps & Hps & [= <- <-]).
  split; [done|]. exists st, ps. split_and!; try done.
  by destruct (_state _) as [st'|]; simpl in Hst; [injection Hst as ->|].
Qed.

Lemma _reset_runs (env : TWGameEnv) (st : State)
    (pass_state : string * string) :
  _state (_start_game (set_episode_ended env false)) = Some st ->
  _conv_pass_state st = Ok pass_state ->
  _reset env = Ok (_start_game (set_episode_ended env false),
                   restart pass_state).
Proof. intros Hst Hps. unfold _reset. rewrite Hst. simpl. by rewrite Hps. Qed.

Lemma _reset_hash (env env' : TWGameEnv) (ts : TimeStep) :
  _reset env = Ok (env', ts) ->
  _hash_dsc env' = _hash_dsc env /\ _hash_inv env' = _hash_inv env /\
  _episode_ended env' = false.
Proof.
  intros Hr. destruct (_reset_returns _ _ _ Hr) as (-> & _).
  destruct (_start_game_hash (set_episode_ended env false)) as [-> ->].
  by rewrite _start_game_flag.
Qed.

(** A [_step] on a running episode: the command is translated, the gym
    runs it, the cache takes the new state's fingerprints, and the reward
    is computed on the cache so updated. *)
Lemma _step_turn (env env' : TWGameEnv) (action : Action) (ts : TimeStep) :
  _episode_ended env = false -> _step env action = Ok (env', ts) ->
  exists old_state cmd g g' new_state r,
    _state env = Some old_state /\
    _conv_to_cmd env action = Ok cmd /\
    curr_TWGym env = Some g /\
    (exists o sc d info,
       gym_step g cmd = (g', (o, sc, d, info)) /\
       new_state = _conv_to_state o sc d info) /\
    env' = _update_hash_cache
             (set_game
                (if done old_state || won old_state || lost old_state
                 then set_episode_ended env true else env)
                g' new_state)
             new_state /\
    _calc_reward env' new_state old_state cmd = Ok r /\
    ts_reward ts = r.
Proof.
  unfold _step. intros Hend Hs. rewrite Hend in Hs.
  apply bind_Ok_inv in Hs as (old & Hold & Hs).
  apply bind_Ok_inv in Hs as (cmd & Hcmd & Hs).
  apply bind_Ok_inv in Hs as (g & Hg & Hs).
  destruct (gym_step g cmd) as [g' [[[o sc] d] info]] eqn:Hgym.
  apply bind_Ok_inv in Hs as (ps & Hps & Hs).
  apply bind_Ok_inv in Hs as (r & Hr & Hs).
  exists old, cmd, g, g', (_conv_to_state o sc d info), r.
  destruct (_state env) as [st|]; simpl in Hold;
    [injection Hold as ->|discriminate].
  assert (Hg' : curr_TWGym env = Some g).
  { destruct (done old || won old || lost old);
      simpl in Hg; destruct (curr_TWGym env); simpl in Hg;
      congruence. }
  assert (Hcmd' : _conv_to_cmd env action = Ok cmd)
    by (by destruct (done old || won old || lost old)).
  destruct (_episode_ended _) in Hs; injection Hs as <- <-;
    split_and!; eauto 10.
Qed.

Lemma _step_hash (env env' : TWGameEnv) (action : Action) (ts : TimeStep) :
  _step env action = Ok (env', ts) ->
  (_episode_ended env = true /\
   _hash_dsc env' = _hash_dsc env /\ _hash_inv env' = _hash_inv env) \/
  (_episode_ended env = false /\ exists st,
   _hash_dsc env' = append_pop0 (_hash_dsc env) (hash (description st)) /\
   _hash_inv env' = append_pop0 (_hash_inv env) (hash (inventory st))).
Proof.
  intros Hs. destruct (_episode_ended env) eqn:Hend.
  - left. unfold _step in Hs. rewrite Hend in Hs.
    apply _reset_hash in Hs as (Hd & Hi & _). done.
  - right. split; [done|].
    destruct (_step_turn _ _ _ _ Hend Hs)
      as (old & cmd & g & g' & new & r & _ & _ & _ & _ & -> & _).
    exists new. by destruct (done old || won old || lost old).
Qed.

Lemma reachable_cache_ok (env : TWGameEnv) :
  reachable env -> cache_ok env.
Proof.
  induction 1 as [gp pv po pb dbg fl env Hi
                 |env env' ts _ IH Hr|env action env' ts _ IH Hs].
  - by eapply cache_ok_init.
  - apply _reset_hash in Hr as (Hd & Hi & _).
    destruct IH. split; congruence.
  - destruct IH as [IHd IHi].
    apply _step_hash in Hs as [(_ & Hd & Hi)|(_ & st & Hd & Hi)];
      split; rewrite ?Hd, ?Hi, ?append_pop0_length; done.
Qed.

End Cache.

(** ** The reward *)

Lemma repeat_count_app (l k : list Z) (h : Z) :
  repeat_count (l ++ k) h = repeat_count l h + repeat_count k h.
Proof. unfold repeat_count. rewrite filter_app, length_app. lia. Qed.

Lemma repeat_count_absent (l : list Z) (h : Z) :
  h ∉ l -> repeat_count l h = 0.
Proof.
  intros Hh. rewrite <- np_sum_count. apply np_sum_zero.
  intros x Hx. apply Z.eqb_neq. by intros ->.
Qed.

Lemma repeat_count_latest_pos (cache : list Z) (h : Z) :
  1 <= repeat_count (cache ++ [h]) h.
Proof.
  rewrite <- np_sum_count. apply np_sum_pos. exists h.
  split; [apply elem_of_app; right; apply list_elem_of_here | apply Z.eqb_refl].
Qed.

Section Reward.

Context `{Host}.

Lemma _calc_cache_changes_latest (cache : list Z) (h : Z) :
  _calc_cache_changes (cache ++ [h]) = Ok (repeat_count (cache ++ [h]) h).
Proof.
  unfold _calc_cache_changes.
  by rewrite getitem_latest, bind_Ok, np_sum_count.
Qed.

Lemma _calc_cache_changes_returns (cache : list Z) :
  cache <> [] ->
  exists l h, cache = l ++ [h] /\
              _calc_cache_changes cache = Ok (repeat_count cache h).
Proof.
  intros Hne. destruct cache as [|x cache _] using rev_ind; [done|].
  exists cache, x. split; [done | apply _calc_cache_changes_latest].
Qed.

(** The reward is the sum of its five addends. *)
Lemma _calc_reward_terms (env : TWGameEnv) (new_state old_state : State)
    (cmd : string) (inv_change des_change : Z) :
  _calc_cache_changes (_hash_inv env) = Ok inv_change ->
  _calc_cache_changes (_hash_dsc env) = Ok des_change ->
  _calc_reward env new_state old_state cmd
  = Ok (score_term new_state old_state
        + bad_action_term (_list_badact env) new_state
        + loop_term inv_change des_change
        + terminal_term new_state
        + admissibility_term cmd new_state).
Proof.
  intros Hinv Hdes. unfold _calc_reward.
  rewrite Hinv, bind_Ok, Hdes, bind_Ok. f_equal.
  unfold score_term, bad_action_term, loop_term, terminal_term,
    admissibility_term, verb_token.
  repeat case_match; lia.
Qed.

Lemma _calc_reward_returns (env : TWGameEnv) (new_state old_state : State)
    (cmd : string) :
  cache_ok env ->
  exists inv_change des_change,
    _calc_cache_changes (_hash_inv env) = Ok inv_change /\
    _calc_cache_changes (_hash_dsc env) = Ok des_change /\
    1 <= inv_change /\ 1 <= des_change /\
    _calc_reward env new_state old_state cmd
    = Ok (score_term new_state old_state
          + bad_action_term (_list_badact env) new_state
          + loop_term inv_change des_change
          + terminal_term new_state
          + admissibility_term cmd new_state).
Proof.
  intros Hok. apply cache_ok_nonempty in Hok as [Hd Hi].
  apply _calc_cache_changes_returns in Hd as (ld & hd & Ed & Hd).
  apply _calc_cache_changes_returns in Hi as (li & hi & Ei & Hi).
  exists (repeat_count (_hash_inv env) hi), (repeat_count (_hash_dsc env) hd).
  split_and!; try done.
  - rewrite Ei. apply repeat_count_latest_pos.
  - rewrite Ed. apply repeat_count_latest_pos.
  - by apply _calc_reward_terms.
Qed.

(** *** The addends one by one *)

Lemma bad_action_term_hit (badact : list string) (new_state : State) :
  (exists elem, elem ∈ badact /\ is_substring elem (obs new_state)) ->
  bad_action_term badact new_state = - useless_act_pun REWARD_DICT.
Proof.
  intros (elem & Hel & Hsub). unfold bad_action_term.
  destruct (Z.eqb_spec
    (np_sum (map (fun elem => str_in elem (obs new_state)) badact)) 0)
    as [Hz|Hnz]; [|done].
  rewrite np_sum_zero in Hz. specialize (Hz elem Hel).
  apply str_in_false in Hz. done.
Qed.

Lemma bad_action_term_miss (badact : list string) (new_state : State) :
  (forall elem, elem ∈ badact -> ~ is_substring elem (obs new_state)) ->
  bad_action_term badact new_state = 0.
Proof.
  intros Hno. unfold bad_action_term.
  replace (np_sum _) with 0; [done|]. symmetry. apply np_sum_zero.
  intros elem Hel. by apply str_in_false, Hno.
Qed.

Lemma _find_verb_in_list_spec (verb_str : string) (adm_cmd : list string) :
  _find_verb_in_list verb_str adm_cmd = true <->
  exists adm, adm ∈ adm_cmd /\ is_substring verb_str adm.
Proof.
  unfold _find_verb_in_list.
  destruct (Z.leb_spec 1 (np_sum (map (fun adm => str_in verb_str adm) adm_cmd)))
    as [Hge|Hlt].
  - apply np_sum_pos in Hge as (adm & Hel & Hin).
    split; [|done]. intros _. exists adm. by rewrite <- str_in_spec.
  - split; [done|]. intros (adm & Hel & Hsub).
    assert (1 <= np_sum (map (fun adm => str_in verb_str adm) adm_cmd)); [|lia].
    apply np_sum_pos. exists adm. by rewrite str_in_spec.
Qed.

Lemma admissibility_term_hit (cmd : string) (new_state : State) :
  (exists adm, adm ∈ admissible_commands new_state /\
               is_substring (verb_token cmd) adm) ->
  admissibility_term cmd new_state = verb_in_adm REWARD_DICT.
Proof.
  intros Hex. unfold admissibility_term.
  by rewrite (proj2 (_find_verb_in_list_spec _ _) Hex).
Qed.

Lemma admissibility_term_miss (cmd : string) (new_state : State) :
  (forall adm, adm ∈ admissible_commands new_state ->
               ~ is_substring (verb_token cmd) adm) ->
  admissibility_term cmd new_state = 0.
Proof.
  intros Hno. unfold admissibility_term.
  destruct (_find_verb_in_list _ _) eqn:Hf; [|done].
  apply _find_verb_in_list_spec in Hf as (adm & Hel & Hsub).
  by destruct (Hno adm Hel).
Qed.

Lemma loop_term_change (inv_change des_change : Z) :
  inv_change <= 1 \/ des_change <= 1 ->
  loop_term inv_change des_change = change_reward REWARD_DICT.
Proof.
  intros Hc. unfold loop_term.
  destruct (Z.leb_spec inv_change 1), (Z.leb_spec des_change 1);
    simpl; lia.
Qed.

Lemma loop_term_loop (inv_change des_change : Z) :
  1 < inv_change -> 1 < des_change ->
  loop_term inv_change des_change
  = - Z.min (inv_change - 1)
            (Z.min (des_change - 1) (max_loop_pun REWARD_DICT)).
Proof.
  intros Hi Hd. unfold loop_term. rewrite min_list_3.
  destruct (Z.leb_spec inv_change 1), (Z.leb_spec des_change 1);
    simpl; lia.
Qed.

(** When the texts of the turn are neutral, the reward is the score
    difference plus the loop and the terminal addends. *)
Lemma _calc_reward_neutral (env : TWGameEnv) (new_state old_state : State)
    (cmd : string) (inv_change des_change : Z) :
  neutral env new_state cmd ->
  _calc_cache_changes (_hash_inv env) = Ok inv_change ->
  _calc_cache_changes (_hash_dsc env) = Ok des_change ->
  _calc_reward env new_state old_state cmd
  = Ok (score new_state - score old_state
        + loop_term inv_change des_change + terminal_term new_state).
Proof.
  intros (Hbad & Hadm) Hinv Hdes.
  rewrite (_calc_reward_terms _ _ _ _ _ _ Hinv Hdes).
  rewrite (bad_action_term_miss _ _ Hbad), (admissibility_term_miss _ _ Hadm).
  unfold score_term. f_equal. lia.
Qed.

Lemma neutral_by_computation `{Host} (env : TWGameEnv) (new_state : State)
    (cmd : string) :
  forallb (fun elem => negb (str_in elem (obs new_state)))
          (_list_badact env) = true ->
  forallb (fun adm => negb (str_in (verb_token cmd) adm))
          (admissible_commands new_state) = true ->
  neutral env new_state cmd.
Proof.
  rewrite !forallb_forall. intros Hbad Hadm. split.
  - intros elem Hel. apply str_in_false, negb_true_iff, Hbad.
    by apply list_elem_of_In.
  - intros adm Hel. apply str_in_false, negb_true_iff, Hadm.
    by apply list_elem_of_In.
Qed.

(** *** Fingerprints new to the cache, and fingerprints repeated *)

Lemma novel_count (cache : list Z) (h : Z) :
  cache <> [] -> h ∉ cache ->
  _calc_cache_changes (append_pop0 cache h) = Ok 1.
Proof.
  intros Hne Hh. unfold append_pop0.
  destruct cache as [|y cache]; simpl; [done|].
  rewrite drop_0, _calc_cache_changes_latest. f_equal.
  rewrite repeat_count_app, repeat_count_absent.
  - unfold repeat_count. rewrite filter_cons. by case_decide.
  - intros Hin. apply Hh. by apply list_elem_of_further.
Qed.

Lemma novel_loop_term (env : TWGameEnv) (new_state : State)
    (inv_change des_change : Z) :
  cache_ok env ->
  hash (description new_state) ∉ _hash_dsc env \/
  hash (inventory new_state) ∉ _hash_inv env ->
  _calc_cache_changes (_hash_inv (_update_hash_cache env new_state))
  = Ok inv_change ->
  _calc_cache_changes (_hash_dsc (_update_hash_cache env new_state))
  = Ok des_change ->
  loop_term inv_change des_change = change_reward REWARD_DICT.
Proof.
  intros Hok Hnovel Hi Hd.
  destruct (cache_ok_nonempty env Hok) as [Hdne Hine].
  apply loop_term_change. destruct Hnovel as [Hn|Hn].
  - right. rewrite hash_dsc_update, novel_count in Hd by done.
    injection Hd as <-. lia.
  - left. rewrite hash_inv_update, novel_count in Hi by done.
    injection Hi as <-. lia.
Qed.

Lemma thrice_count (cache : list Z) (h : Z) :
  (3 <= length cache)%nat -> h ∉ cache ->
  _calc_cache_changes (foldl append_pop0 cache [h; h; h]) = Ok 3.
Proof.
  intros Hlen Hh. rewrite foldl_append_pop0. simpl.
  rewrite drop_app_le by done.
  change [h; h; h] with ([h; h] ++ [h]). rewrite app_assoc.
  rewrite _calc_cache_changes_latest. f_equal.
  rewrite <- app_assoc, repeat_count_app, repeat_count_absent.
  - unfold repeat_count. simpl. rewrite !filter_cons.
    by repeat case_decide.
  - intros Hin. apply Hh. by eapply subseteq_drop.
Qed.

Lemma repeat_count_range (l : list Z) (h : Z) :
  0 <= repeat_count l h <= Z.of_nat (length l).
Proof.
  unfold repeat_count. pose proof (length_filter (fun x => x = h) l). lia.
Qed.

(** The same fingerprint three times over: the count is three more than
    what the cache still holds of it from before. *)
Lemma thrice_count_older (cache : list Z) (h : Z) :
  (3 <= length cache)%nat ->
  _calc_cache_changes (foldl append_pop0 cache [h; h; h])
  = Ok (3 + repeat_count (drop 3 cache) h).
Proof.
  intros Hlen. rewrite foldl_append_pop0. simpl.
  rewrite drop_app_le by done.
  change [h; h; h] with ([h; h] ++ [h]). rewrite app_assoc.
  rewrite _calc_cache_changes_latest. f_equal.
  rewrite <- app_assoc, repeat_count_app.
  unfold repeat_count at 2. simpl. rewrite !filter_cons.
  repeat case_decide; try done. simpl. lia.
Qed.

End Reward.

(** ** Command translation *)

Section Translation.

Context `{Host}.

Lemma bind_singleton_fmap {A B} (g : A -> B) (l : list A) :
  (l ≫= fun a => [g a]) = g <$> l.
Proof. induction l as [|a l IH]; [done|]. by rewrite bind_cons, IH. Qed.

Lemma verbobj_product_length (verbs objs : list string) :
  length (verbobj_product verbs objs) = (length verbs * length objs)%nat.
Proof.
  unfold verbobj_product. induction verbs as [|v verbs IH]; [done|].
  rewrite bind_cons, length_app, IH, bind_singleton_fmap, length_fmap.
  simpl. lia.
Qed.

Lemma verbobj_product_lookup (verbs objs : list string) (a b : nat)
    (v o : string) :
  verbs !! a = Some v -> objs !! b = Some o ->
  verbobj_product verbs objs !! (a * length objs + b)%nat
  = Some (v +:+ " " +:+ o).
Proof.
  unfold verbobj_product. revert a.
  induction verbs as [|v0 verbs IH]; intros a Hv Ho; [done|].
  rewrite bind_cons, bind_singleton_fmap.
  apply lookup_lt_Some in Ho as Hb.
  destruct a as [|a]; simpl in Hv.
  - injection Hv as ->. rewrite lookup_app_l by (rewrite length_fmap; lia).
    simpl. by rewrite list_lookup_fmap, Ho.
  - rewrite lookup_app_r by (rewrite length_fmap; lia).
    rewrite length_fmap.
    replace (S a * length objs + b - length objs)%nat
      with (a * length objs + b)%nat by lia.
    by apply IH.
Qed.

(** *** The vocabulary never changes after construction *)

Lemma _start_game_vocabulary (env : TWGameEnv) :
  same_vocabulary env (_start_game env).
Proof.
  unfold _start_game.
  by destruct (gym_step _ _) as [g' [[[o sc] d] info]].
Qed.

Lemma _reset_vocabulary (env env' : TWGameEnv) (ts : TimeStep) :
  _reset env = Ok (env', ts) -> same_vocabulary env env'.
Proof.
  intros Hr. destruct (_reset_returns _ _ _ Hr) as (-> & _).
  apply (_start_game_vocabulary (set_episode_ended env false)).
Qed.

Lemma _step_vocabulary (env env' : TWGameEnv) (action : Action)
    (ts : TimeStep) :
  _step env action = Ok (env', ts) -> same_vocabulary env env'.
Proof.
  intros Hs. destruct (_episode_ended env) eqn:Hend.
  - unfold _step in Hs. rewrite Hend in Hs. by apply _reset_vocabulary in Hs.
  - destruct (_step_turn _ _ _ _ Hend Hs)
      as (old & cmd & g & g' & new & r & _ & _ & _ & _ & -> & _).
    by destruct (done old || won old || lost old).
Qed.

Lemma reachable_verbobj_ok (env : TWGameEnv) :
  reachable env -> verbobj_ok env.
Proof.
  induction 1 as [gp pv po pb dbg fl env Hi|env env' ts _ IH Hr
                  |env action env' ts _ IH Hs].
  - destruct (__init___returns _ _ _ _ _ _ _ Hi)
      as ((_ & _ & _ & _ & _ & Hf) & (Hv & Ho & _ & Hvo) & _).
    unfold verbobj_ok. by rewrite Hvo, Hf, Hv, Ho.
  - apply _reset_vocabulary in Hr as (Hf & Hv & Ho & _ & Hvo).
    unfold verbobj_ok in *. by rewrite Hf, Hv, Ho, Hvo.
  - apply _step_vocabulary in Hs as (Hf & Hv & Ho & _ & Hvo).
    unfold verbobj_ok in *. by rewrite Hf, Hv, Ho, Hvo.
Qed.

(** *** The constructor refuses an empty word list *)

Lemma new_BoundedArraySpec_returns (minimum maximum : list Z)
    (spec : BoundedArraySpec) :
  new_BoundedArraySpec minimum maximum = Ok spec ->
  spec = {| spec_minimum := minimum; spec_maximum := maximum |} /\
  forallb (fun mM => fst mM <=? snd mM) (zip minimum maximum) = true /\
  forallb in_uint16 minimum = true /\ forallb in_uint16 maximum = true.
Proof.
  unfold new_BoundedArraySpec.
  destruct (forallb (fun mM => _) _); [|done].
  destruct (forallb in_uint16 minimum); [|done].
  destruct (forallb in_uint16 maximum); [|done].
  by intros [= <-].
Qed.


Lemma new_BoundedArraySpec_flat (M : Z) :
  new_BoundedArraySpec [0] [M]
  = if (0 <=? M) && (M <=? UINT16_MAX)
    then Ok {| spec_minimum := [0]; spec_maximum := [M] |}
    else Raise ValueError.
Proof.
  unfold new_BoundedArraySpec, in_uint16. simpl.
  by destruct (0 <=? M), (M <=? UINT16_MAX).
Qed.

Lemma new_BoundedArraySpec_pair (M N : Z) :
  new_BoundedArraySpec [0; 0] [M; N]
  = if (0 <=? M) && (M <=? UINT16_MAX) && ((0 <=? N) && (N <=? UINT16_MAX))
    then Ok {| spec_minimum := [0; 0]; spec_maximum := [M; N] |}
    else Raise ValueError.
Proof.
  unfold new_BoundedArraySpec, in_uint16. simpl.
  by destruct (0 <=? M), (M <=? UINT16_MAX), (0 <=? N), (N <=? UINT16_MAX).
Qed.


(** The constructor returns for word lists that are not empty and whose
    last index [np.uint16] can hold, and for those only. *)
Lemma __init___nonempty gp pv po pb dbg fl :
  (exists env, __init__ gp pv po pb dbg fl = Ok env) <->
  _get_words pv <> [] /\ _get_words po <> [] /\
  if fl
  then Z.of_nat (length (_get_words pv)) * Z.of_nat (length (_get_words po))
       <= UINT16_MAX + 1
  else Z.of_nat (length (_get_words pv)) <= UINT16_MAX + 1 /\
       Z.of_nat (length (_get_words po)) <= UINT16_MAX + 1.
Proof.
  unfold __init__.
  assert (Hlen : forall l : list string, l <> [] <-> 0 <= Z.of_nat (length l) - 1)
    by (intros [|x l]; simpl; split; (done || lia)).
  destruct fl; cbv zeta.
  - rewrite new_BoundedArraySpec_flat, verbobj_product_length, Nat2Z.inj_mul.
    rewrite !Hlen.
    destruct (Z.leb_spec 0 (Z.of_nat (length (_get_words pv))
                            * Z.of_nat (length (_get_words po)) - 1)),
      (Z.leb_spec (Z.of_nat (length (_get_words pv))
                   * Z.of_nat (length (_get_words po)) - 1) UINT16_MAX);
      simpl; split; try (by intros [env Hi]); try (by eexists);
      try (intros _; nia); intros (? & ? & ?); nia.
  - rewrite new_BoundedArraySpec_pair. rewrite !Hlen.
    destruct (Z.leb_spec 0 (Z.of_nat (length (_get_words pv)) - 1)),
      (Z.leb_spec (Z.of_nat (length (_get_words pv)) - 1) UINT16_MAX),
      (Z.leb_spec 0 (Z.of_nat (length (_get_words po)) - 1)),
      (Z.leb_spec (Z.of_nat (length (_get_words po)) - 1) UINT16_MAX);
      simpl; split; try (by intros [env Hi]); try (by eexists);
      try (intros _; lia); intros (? & ? & ? & ?); lia.
Qed.

Lemma reachable_nonempty (env : TWGameEnv) :
  reachable env -> _list_verb env <> [] /\ _list_obj env <> [].
Proof.
  induction 1 as [gp pv po pb dbg fl env Hi|env env' ts _ IH Hr
                  |env action env' ts _ IH Hs].
  - destruct (__init___returns _ _ _ _ _ _ _ Hi)
      as (_ & (-> & -> & _) & _).
    destruct (proj1 (__init___nonempty gp pv po pb dbg fl)) as (Hv & Ho & _);
      [by exists env | done].
  - apply _reset_vocabulary in Hr as (_ & Hv & Ho & _).
    by rewrite Hv, Ho.
  - apply _step_vocabulary in Hs as (_ & Hv & Ho & _).
    by rewrite Hv, Ho.
Qed.

(** *** The two modes *)

Lemma _conv_to_cmd_flat (env : TWGameEnv) (i : Z) :
  verbobj_ok env -> _flatten_actspec env = true ->
  _conv_to_cmd env (Flat i)
  = getitem (verbobj_product (_list_verb env) (_list_obj env)) i.
Proof.
  unfold verbobj_ok, _conv_to_cmd. intros Hvo Hf.
  rewrite Hf in *. by rewrite Hvo.
Qed.

Lemma _conv_to_cmd_pair (env : TWGameEnv) (i0 i1 : Z) :
  _flatten_actspec env = false ->
  _conv_to_cmd env (Pair i0 i1)
  = (verb ← getitem (_list_verb env) i0;
     obj ← (if i1 =? 0 then Ok ""%string else getitem (_list_obj env) i1);
     Ok (verb +:+ " " +:+ obj)).
Proof. unfold _conv_to_cmd. by intros ->. Qed.

(** Every command that comes out of the translator has a space in it. *)
Lemma _conv_to_cmd_space (env : TWGameEnv) (action : Action) (cmd : string) :
  verbobj_ok env ->
  _conv_to_cmd env action = Ok cmd -> is_substring " " cmd.
Proof.
  intros Hvo Hc. destruct (_flatten_actspec env) eqn:Hf.
  - destruct action as [i|v o].
    + rewrite _conv_to_cmd_flat in Hc by done.
      apply getitem_Ok_inv in Hc as [_ Hin].
      unfold verbobj_product in Hin.
      apply list_elem_of_bind in Hin as (v & Hin & _).
      apply list_elem_of_bind in Hin as (o & Hin & _).
      apply list_elem_of_singleton in Hin as ->. by exists v, o.
    + unfold _conv_to_cmd in Hc. rewrite Hf in Hc. discriminate.
  - destruct action as [i|v o].
    + unfold _conv_to_cmd in Hc. rewrite Hf in Hc. discriminate.
    + rewrite _conv_to_cmd_pair in Hc by done.
      apply bind_Ok_inv in Hc as (verb & _ & Hc).
      apply bind_Ok_inv in Hc as (obj & _ & Hc).
      injection Hc as <-. by exists verb, obj.
Qed.

End Translation.

(** ** The properties of the specification *)

Section Claims.

Context `{Host}.

(** C2. The recent-history cache is two strict first-in-first-out rings of
    ten entries.  Both buffers of every environment a program can hold
    (constructed, then reset and stepped any number of times) have length
    exactly 10; every update appends the new description fingerprint and
    the new inventory fingerprint to their buffers and drops each buffer's
    oldest entry; after at least ten updates a buffer holds exactly the
    last ten fingerprints appended; and after eleven updates with pairwise
    different fingerprints the first one appended is gone from the buffer,
    while after ten it was still there. *)
Theorem hash_cache_is_ring_of_ten :
  (forall env, reachable env ->
     length (_hash_dsc env) = 10%nat /\ length (_hash_inv env) = 10%nat) /\
  (forall env st, cache_ok env ->
     _hash_dsc (_update_hash_cache env st)
       = drop 1 (_hash_dsc env) ++ [hash (description st)] /\
     _hash_inv (_update_hash_cache env st)
       = drop 1 (_hash_inv env) ++ [hash (inventory st)] /\
     cache_ok (_update_hash_cache env st)) /\
  (forall env states, cache_ok env -> (10 <= length states)%nat ->
     _hash_dsc (feed env states)
       = drop (length states - 10)
              (map (fun st => hash (description st)) states) /\
     _hash_inv (feed env states)
       = drop (length states - 10)
              (map (fun st => hash (inventory st)) states)) /\
  (forall env first rest, cache_ok env -> length rest = 10%nat ->
     (NoDup (map (fun st => hash (description st)) (first :: rest)) ->
      (hash (description first) ∉ _hash_dsc (feed env (first :: rest))) /\
      (hash (description first)
         ∈ _hash_dsc (feed env (take 10 (first :: rest))))) /\
     (NoDup (map (fun st => hash (inventory st)) (first :: rest)) ->
      (hash (inventory first) ∉ _hash_inv (feed env (first :: rest))) /\
      (hash (inventory first)
         ∈ _hash_inv (feed env (take 10 (first :: rest)))))).
Proof.
  assert (Hlast : forall env states, cache_ok env -> (10 <= length states)%nat ->
     _hash_dsc (feed env states)
       = drop (length states - 10)
              (map (fun st => hash (description st)) states) /\
     _hash_inv (feed env states)
       = drop (length states - 10)
              (map (fun st => hash (inventory st)) states)).
  { intros env states [Hd Hi] Hlen.
    rewrite hash_dsc_feed, hash_inv_feed.
    rewrite <- (length_map (fun st => hash (description st)) states) at 1.
    rewrite <- (length_map (fun st => hash (inventory st)) states) at 2.
    unfold HASH_LIST_LENGTH in *.
    rewrite (ring_keeps_last (_hash_dsc env)) by (rewrite length_map; lia).
    rewrite (ring_keeps_last (_hash_inv env)) by (rewrite length_map; lia).
    by rewrite !length_map, Hd, Hi. }
  split_and!.
  - intros env Hr. apply (reachable_cache_ok env Hr).
  - intros env st Hok. destruct (cache_ok_nonempty env Hok) as [Hd Hi].
    rewrite hash_dsc_update, hash_inv_update, !append_pop0_fifo by done.
    split_and!; try done. by apply cache_ok_update.
  - exact Hlast.
  - intros env first rest Hok Hlen.
    assert (Hl11 : length (first :: rest) = 11%nat) by (cbn [length]; lia).
    assert (Hl10 : length (take 10 (first :: rest)) = 10%nat)
      by (rewrite length_take; lia).
    destruct (Hlast env (first :: rest) Hok) as [Ed Ei]; [lia|].
    destruct (Hlast env (take 10 (first :: rest)) Hok) as [Ed' Ei']; [lia|].
    rewrite Ed, Ei, Ed', Ei', Hl11, Hl10.
    change (11 - 10)%nat with 1%nat. change (10 - 10)%nat with 0%nat.
    rewrite !drop_0. cbn [take map drop].
    split; intros [Hnin _]%NoDup_cons; (split; [done|]);
      apply list_elem_of_here.
Qed.

(** C10. The cache persists across resets.  The constructor is the one
    place that initialises the two buffers (to ten zeros each).
    [_start_game] returns an environment whose two buffers are the ones it
    was given, and so does every [_reset] that returns: it starts a new
    game (the gym made for the game file, reset, after "look") on an
    episode that runs, and appends nothing.  [_reset] returns whenever the
    first description and inventory can be put into the observation
    array, and raises what that conversion raises otherwise.  A [_step]
    on an ended episode, which resets, leaves the buffers alone as well;
    and the first turn of the next episode appends to the buffers as the
    last episode left them. *)
Theorem hash_cache_survives_reset :
  (forall gp pv po pb dbg fl env,
     __init__ gp pv po pb dbg fl = Ok env ->
     _hash_dsc env = replicate 10 0 /\ _hash_inv env = replicate 10 0) /\
  (forall env,
     _hash_dsc (_start_game env) = _hash_dsc env /\
     _hash_inv (_start_game env) = _hash_inv env) /\
  (forall env env' ts, _reset env = Ok (env', ts) ->
     _hash_dsc env' = _hash_dsc env /\ _hash_inv env' = _hash_inv env /\
     curr_TWGym env' = Some (fresh_game (_game_path env)).1 /\
     _state env' = Some (fresh_game (_game_path env)).2 /\
     _episode_ended env' = false) /\
  (forall env,
     (forall pass_state,
        _conv_pass_state (fresh_game (_game_path env)).2 = Ok pass_state ->
        exists env', _reset env = Ok (env', restart pass_state)) /\
     (forall e,
        _conv_pass_state (fresh_game (_game_path env)).2 = Raise e ->
        _reset env = Raise e)) /\
  (forall env action env' ts,
     _episode_ended env = true -> _step env action = Ok (env', ts) ->
     _hash_dsc env' = _hash_dsc env /\ _hash_inv env' = _hash_inv env) /\
  (forall env action env1 ts1 env2 ts2,
     _reset env = Ok (env1, ts1) -> _step env1 action = Ok (env2, ts2) ->
     exists new_state,
       _state env2 = Some new_state /\
       _hash_dsc env2
         = append_pop0 (_hash_dsc env) (hash (description new_state)) /\
       _hash_inv env2
         = append_pop0 (_hash_inv env) (hash (inventory new_state))).
Proof.
  split_and!.
  - intros gp pv po pb dbg fl env Hi.
    by destruct (__init___returns _ _ _ _ _ _ _ Hi)
      as (_ & _ & (Hd & Hv & _) & _).
  - apply _start_game_hash.
  - intros env env' ts Hr.
    destruct (_reset_hash _ _ _ Hr) as (Hd & Hi & Hend).
    destruct (_reset_fresh _ _ _ Hr) as (Hg & Hst & _).
    by split_and!.
  - apply _reset_outcome.
  - intros env action env' ts Hend Hs.
    apply _step_hash in Hs as [(_ & Hd & Hi)|(Hf & _)]; [done | congruence].
  - intros env action env1 ts1 env2 ts2 Hr Hs.
    apply _reset_hash in Hr as (Hd & Hi & Hend). rewrite <- Hd, <- Hi.
    destruct (_step_turn _ _ _ _ Hend Hs)
      as (old & cmd & g & g' & new & r & _ & _ & _ & _ & -> & _).
    exists new. by destruct (done old || won old || lost old).
Qed.

(** C1, as the code has it.  [_step] computes the reward of a turn from
    the state it started from, the command it translated and the state
    the game answered with, on the cache to which the fingerprints of
    that answer have already been appended.  Once a turn's description
    and inventory fingerprints have been appended to their buffers,
    [_calc_cache_changes] returns for each buffer the number of its
    entries equal to the entry just appended, and each count is at least
    1.  If either count is at most 1 the reward gains [change_reward]
    (1); otherwise it loses the least of the inventory count less one, the
    description count less one and [max_loop_pun] (5).  When the same
    description and inventory texts come three turns in a row, each count
    is 3 plus the number of times the fingerprint stands among the seven
    entries the buffer still holds from before; with nothing else bearing
    on the reward of the third turn (equal scores, neutral texts, game
    neither won nor lost) that reward is minus the least of the two counts
    less one and 5: it is -2 exactly when one of the two fingerprints is
    not among those seven entries, as when the buffers did not hold the
    fingerprints before, and -3 or less otherwise. *)
Theorem loop_stagnation_term :
  (forall env action env' ts,
     _episode_ended env = false -> _step env action = Ok (env', ts) ->
     exists new_state old_state cmd,
       _state env = Some old_state /\
       _conv_to_cmd env action = Ok cmd /\
       (exists g g' o sc d info,
          curr_TWGym env = Some g /\
          gym_step g cmd = (g', (o, sc, d, info)) /\
          new_state = _conv_to_state o sc d info) /\
       _state env' = Some new_state /\
       _hash_dsc env'
       = _hash_dsc (_update_hash_cache env new_state) /\
       _hash_inv env'
       = _hash_inv (_update_hash_cache env new_state) /\
       _calc_reward env' new_state old_state cmd = Ok (ts_reward ts)) /\
  (forall env st, cache_ok env ->
     exists invRepeatCount descRepeatCount,
       invRepeatCount
         = repeat_count (_hash_inv (_update_hash_cache env st))
                        (hash (inventory st)) /\
       descRepeatCount
         = repeat_count (_hash_dsc (_update_hash_cache env st))
                        (hash (description st)) /\
       _calc_cache_changes (_hash_inv (_update_hash_cache env st))
         = Ok invRepeatCount /\
       _calc_cache_changes (_hash_dsc (_update_hash_cache env st))
         = Ok descRepeatCount /\
       1 <= invRepeatCount /\ 1 <= descRepeatCount /\
       forall new_state old_state cmd,
         let others :=
           score_term new_state old_state
           + bad_action_term (_list_badact env) new_state
           + terminal_term new_state
           + admissibility_term cmd new_state in
         (invRepeatCount <= 1 \/ descRepeatCount <= 1 ->
          _calc_reward (_update_hash_cache env st) new_state old_state cmd
          = Ok (others + change_reward REWARD_DICT)) /\
         (1 < invRepeatCount -> 1 < descRepeatCount ->
          _calc_reward (_update_hash_cache env st) new_state old_state cmd
          = Ok (others - Z.min (invRepeatCount - 1)
                           (Z.min (descRepeatCount - 1)
                                  (max_loop_pun REWARD_DICT))))) /\
  change_reward REWARD_DICT = 1 /\
  max_loop_pun REWARD_DICT = 5 /\
  (forall env s1 s2 s3 old_state cmd, cache_ok env ->
     description s2 = description s1 -> description s3 = description s1 ->
     inventory s2 = inventory s1 -> inventory s3 = inventory s1 ->
     neutral env s3 cmd -> won s3 = false -> lost s3 = false ->
     score s3 = score old_state ->
     let invOlder :=
       repeat_count (drop 3 (_hash_inv env)) (hash (inventory s1)) in
     let descOlder :=
       repeat_count (drop 3 (_hash_dsc env)) (hash (description s1)) in
     0 <= invOlder <= 7 /\ 0 <= descOlder <= 7 /\
     _calc_cache_changes (_hash_inv (feed env [s1; s2; s3]))
     = Ok (3 + invOlder) /\
     _calc_cache_changes (_hash_dsc (feed env [s1; s2; s3]))
     = Ok (3 + descOlder) /\
     _calc_reward (feed env [s1; s2; s3]) s3 old_state cmd
     = Ok (- Z.min (2 + invOlder) (Z.min (2 + descOlder) 5)) /\
     (_calc_reward (feed env [s1; s2; s3]) s3 old_state cmd = Ok (-2)
      <-> invOlder = 0 \/ descOlder = 0) /\
     (hash (inventory s1) ∉ _hash_inv env -> invOlder = 0) /\
     (hash (description s1) ∉ _hash_dsc env -> descOlder = 0)) /\
  (forall env s1 s2 s3 old_state cmd, cache_ok env ->
     description s2 = description s1 -> description s3 = description s1 ->
     inventory s2 = inventory s1 -> inventory s3 = inventory s1 ->
     hash (description s1) ∉ _hash_dsc env ->
     hash (inventory s1) ∉ _hash_inv env ->
     neutral env s3 cmd -> won s3 = false -> lost s3 = false ->
     score s3 = score old_state ->
     _calc_cache_changes (_hash_inv (feed env [s1; s2; s3])) = Ok 3 /\
     _calc_cache_changes (_hash_dsc (feed env [s1; s2; s3])) = Ok 3 /\
     _calc_reward (feed env [s1; s2; s3]) s3 old_state cmd = Ok (-2)).
Proof.
  split_and!; try done.
  - intros env action env' ts Hend Hs.
    destruct (_step_turn _ _ _ _ Hend Hs)
      as (old & cmd & g & g' & new & r & Hold & Hcmd & Hg
          & (o & sc & d & info & Hstep & Hnew) & -> & Hr & ->).
    exists new, old, cmd. split_and!; try done;
      try (by exists g, g', o, sc, d, info);
      by destruct (done old || won old || lost old).
  - intros env st Hok.
    destruct (cache_ok_nonempty env Hok) as [Hd Hi].
    assert (Hci : _calc_cache_changes (_hash_inv (_update_hash_cache env st))
                  = Ok (repeat_count (_hash_inv (_update_hash_cache env st))
                                     (hash (inventory st)))).
    { rewrite hash_inv_update, append_pop0_fifo by done.
      apply _calc_cache_changes_latest. }
    assert (Hcd : _calc_cache_changes (_hash_dsc (_update_hash_cache env st))
                  = Ok (repeat_count (_hash_dsc (_update_hash_cache env st))
                                     (hash (description st)))).
    { rewrite hash_dsc_update, append_pop0_fifo by done.
      apply _calc_cache_changes_latest. }
    eexists _, _. split_and!; try done.
    + rewrite hash_inv_update, append_pop0_fifo by done.
      apply repeat_count_latest_pos.
    + rewrite hash_dsc_update, append_pop0_fifo by done.
      apply repeat_count_latest_pos.
    + intros new_state old_state cmd others.
      pose proof (_calc_reward_terms (_update_hash_cache env st)
                    new_state old_state cmd _ _ Hci Hcd) as Hr.
      split.
      * intros Hc. rewrite Hr, (loop_term_change _ _ Hc).
        f_equal. subst others. simpl. lia.
      * intros Hi1 Hd1. rewrite Hr, (loop_term_loop _ _ Hi1 Hd1).
        f_equal. subst others. simpl. lia.
  - intros env s1 s2 s3 old_state cmd [Hd Hi] Ed2 Ed3 Ei2 Ei3
      Hneutral Hwon Hlost Hscore invOlder descOlder.
    assert (Hbi : 0 <= invOlder <= 7).
    { pose proof (repeat_count_range (drop 3 (_hash_inv env))
                    (hash (inventory s1))) as Hb.
      rewrite length_drop, Hi in Hb. unfold HASH_LIST_LENGTH in Hb.
      subst invOlder. lia. }
    assert (Hbd : 0 <= descOlder <= 7).
    { pose proof (repeat_count_range (drop 3 (_hash_dsc env))
                    (hash (description s1))) as Hb.
      rewrite length_drop, Hd in Hb. unfold HASH_LIST_LENGTH in Hb.
      subst descOlder. lia. }
    assert (Hci : _calc_cache_changes (_hash_inv (feed env [s1; s2; s3]))
                  = Ok (3 + invOlder)).
    { change (_hash_inv (feed env [s1; s2; s3]))
        with (foldl append_pop0 (_hash_inv env)
                [hash (inventory s1); hash (inventory s2);
                 hash (inventory s3)]).
      rewrite Ei2, Ei3. apply thrice_count_older.
      rewrite Hi. unfold HASH_LIST_LENGTH. lia. }
    assert (Hcd : _calc_cache_changes (_hash_dsc (feed env [s1; s2; s3]))
                  = Ok (3 + descOlder)).
    { change (_hash_dsc (feed env [s1; s2; s3]))
        with (foldl append_pop0 (_hash_dsc env)
                [hash (description s1); hash (description s2);
                 hash (description s3)]).
      rewrite Ed2, Ed3. apply thrice_count_older.
      rewrite Hd. unfold HASH_LIST_LENGTH. lia. }
    assert (Hr : _calc_reward (feed env [s1; s2; s3]) s3 old_state cmd
                 = Ok (- Z.min (2 + invOlder) (Z.min (2 + descOlder) 5))).
    { rewrite (_calc_reward_neutral _ _ _ _ (3 + invOlder) (3 + descOlder));
        try done.
      unfold terminal_term. rewrite Hwon, Hlost, Hscore.
      rewrite loop_term_loop by lia. f_equal.
      change (max_loop_pun REWARD_DICT) with 5. lia. }
    split_and!; try done; try lia.
    + rewrite Hr. split.
      * intros [= E]. lia.
      * intros E. f_equal. lia.
    + intros Hn. apply repeat_count_absent.
      intros Hin. apply Hn. by eapply subseteq_drop.
    + intros Hn. apply repeat_count_absent.
      intros Hin. apply Hn. by eapply subseteq_drop.
  - intros env s1 s2 s3 old_state cmd [Hd Hi] Ed2 Ed3 Ei2 Ei3 Hnd Hni
      Hneutral Hwon Hlost Hscore.
    assert (Hci : _calc_cache_changes (_hash_inv (feed env [s1; s2; s3]))
                  = Ok 3).
    { change (_hash_inv (feed env [s1; s2; s3]))
        with (foldl append_pop0 (_hash_inv env)
                [hash (inventory s1); hash (inventory s2);
                 hash (inventory s3)]).
      rewrite Ei2, Ei3.
      apply (thrice_count (_hash_inv env)); [|done].
      rewrite Hi. unfold HASH_LIST_LENGTH. lia. }
    assert (Hcd : _calc_cache_changes (_hash_dsc (feed env [s1; s2; s3]))
                  = Ok 3).
    { change (_hash_dsc (feed env [s1; s2; s3]))
        with (foldl append_pop0 (_hash_dsc env)
                [hash (description s1); hash (description s2);
                 hash (description s3)]).
      rewrite Ed2, Ed3.
      apply (thrice_count (_hash_dsc env)); [|done].
      rewrite Hd. unfold HASH_LIST_LENGTH. lia. }
    split_and!; try done.
    rewrite (_calc_reward_neutral _ _ _ _ 3 3); try done.
    unfold terminal_term. rewrite Hwon, Hlost, Hscore.
    replace (loop_term 3 3) with (-2) by reflexivity. f_equal. lia.
Qed.

(** C7. The bad-action penalty.  The reward is the sum of the other four
    addends, less [useless_act_pun] (1) when at least one string of the
    bad-action list is a substring of the new state's feedback text, and
    less nothing when none is.  The deduction does not grow with the
    number of strings that match: any two bad-action lists that each have
    a match cost the same. *)
Theorem bad_action_penalty :
  (forall env new_state old_state cmd, cache_ok env ->
     exists inv_change des_change,
       _calc_cache_changes (_hash_inv env) = Ok inv_change /\
       _calc_cache_changes (_hash_dsc env) = Ok des_change /\
       let others :=
         score_term new_state old_state
         + loop_term inv_change des_change
         + terminal_term new_state
         + admissibility_term cmd new_state in
       ((exists elem, elem ∈ _list_badact env /\
                      is_substring elem (obs new_state)) ->
        _calc_reward env new_state old_state cmd
        = Ok (others - useless_act_pun REWARD_DICT)) /\
       ((forall elem, elem ∈ _list_badact env ->
                      ~ is_substring elem (obs new_state)) ->
        _calc_reward env new_state old_state cmd = Ok others)) /\
  useless_act_pun REWARD_DICT = 1 /\
  (forall badact1 badact2 new_state,
     (exists elem, elem ∈ badact1 /\ is_substring elem (obs new_state)) ->
     (exists elem, elem ∈ badact2 /\ is_substring elem (obs new_state)) ->
     bad_action_term badact1 new_state = bad_action_term badact2 new_state).
Proof.
  split_and!; try done.
  - intros env new_state old_state cmd Hok.
    destruct (_calc_reward_returns env new_state old_state cmd Hok)
      as (inv_change & des_change & Hi & Hd & _ & _ & Hr).
    exists inv_change, des_change. cbv zeta. split_and!; try done.
    + intros Hhit. rewrite Hr, (bad_action_term_hit _ _ Hhit).
      f_equal. lia.
    + intros Hmiss. rewrite Hr, (bad_action_term_miss _ _ Hmiss).
      f_equal. lia.
  - intros badact1 badact2 new_state H1 H2.
    by rewrite !bad_action_term_hit.
Qed.

(** C8. The score difference.  The reward is the new score less the old
    score, plus the other four addends.  When the texts of the turn are
    neutral, the game is neither won nor lost and the description or the
    inventory fingerprint is new to its buffer, the reward of the turn is
    the score difference plus [change_reward]; from score 5 to score 8
    it is exactly 4. *)
Theorem score_delta_term :
  (forall env new_state old_state cmd, cache_ok env ->
     exists inv_change des_change,
       _calc_cache_changes (_hash_inv env) = Ok inv_change /\
       _calc_cache_changes (_hash_dsc env) = Ok des_change /\
       _calc_reward env new_state old_state cmd
       = Ok ((score new_state - score old_state)
             + (bad_action_term (_list_badact env) new_state
                + loop_term inv_change des_change
                + terminal_term new_state
                + admissibility_term cmd new_state))) /\
  (forall env new_state old_state cmd, cache_ok env ->
     neutral env new_state cmd ->
     won new_state = false -> lost new_state = false ->
     hash (description new_state) ∉ _hash_dsc env \/
     hash (inventory new_state) ∉ _hash_inv env ->
     _calc_reward (_update_hash_cache env new_state) new_state old_state cmd
     = Ok (score new_state - score old_state + change_reward REWARD_DICT) /\
     (score old_state = 5 -> score new_state = 8 ->
      _calc_reward (_update_hash_cache env new_state) new_state old_state cmd
      = Ok 4)).
Proof.
  split.
  - intros env new_state old_state cmd Hok.
    destruct (_calc_reward_returns env new_state old_state cmd Hok)
      as (inv_change & des_change & Hi & Hd & _ & _ & Hr).
    exists inv_change, des_change. split_and!; try done.
    rewrite Hr. unfold score_term. f_equal. lia.
  - intros env new_state old_state cmd Hok Hneutral Hwon Hlost Hnovel.
    destruct (_calc_reward_returns (_update_hash_cache env new_state)
                new_state old_state cmd (cache_ok_update _ _ Hok))
      as (inv_change & des_change & Hi & Hd & _ & _ & _).
    assert (Hr : _calc_reward (_update_hash_cache env new_state)
                   new_state old_state cmd
                 = Ok (score new_state - score old_state
                       + change_reward REWARD_DICT)).
    { rewrite (_calc_reward_neutral (_update_hash_cache env new_state)
               _ _ _ _ _ Hneutral Hi Hd).
      rewrite (novel_loop_term _ _ _ _ Hok Hnovel Hi Hd). unfold terminal_term.
      rewrite Hwon, Hlost. f_equal. lia. }
    split; [done|]. intros H5 H8. by rewrite Hr, H5, H8.
Qed.

(** C9. The terminal bonus and penalty.  The reward is the sum of the other
    four addends, plus [win_lose_value] (100) when the new state is won;
    less [win_lose_value] when it is not won but lost; and neither when it
    is neither.  With a score difference of 3, neutral texts, a
    fingerprint new to its buffer and the game won, the reward is exactly
    104: the win adds to the other addends and replaces none of them. *)
Theorem terminal_bonus :
  (forall env new_state old_state cmd, cache_ok env ->
     exists inv_change des_change,
       _calc_cache_changes (_hash_inv env) = Ok inv_change /\
       _calc_cache_changes (_hash_dsc env) = Ok des_change /\
       let others :=
         score_term new_state old_state
         + bad_action_term (_list_badact env) new_state
         + loop_term inv_change des_change
         + admissibility_term cmd new_state in
       (won new_state = true ->
        _calc_reward env new_state old_state cmd
        = Ok (others + win_lose_value REWARD_DICT)) /\
       (won new_state = false -> lost new_state = true ->
        _calc_reward env new_state old_state cmd
        = Ok (others - win_lose_value REWARD_DICT)) /\
       (won new_state = false -> lost new_state = false ->
        _calc_reward env new_state old_state cmd = Ok others)) /\
  win_lose_value REWARD_DICT = 100 /\
  (forall env new_state old_state cmd, cache_ok env ->
     neutral env new_state cmd ->
     won new_state = true ->
     hash (description new_state) ∉ _hash_dsc env \/
     hash (inventory new_state) ∉ _hash_inv env ->
     score new_state - score old_state = 3 ->
     _calc_reward (_update_hash_cache env new_state) new_state old_state cmd
     = Ok 104).
Proof.
  split_and!; try done.
  - intros env new_state old_state cmd Hok.
    destruct (_calc_reward_returns env new_state old_state cmd Hok)
      as (inv_change & des_change & Hi & Hd & _ & _ & Hr).
    exists inv_change, des_change. cbv zeta. split_and!; try done.
    + intros Hwon. rewrite Hr. unfold terminal_term. rewrite Hwon.
      f_equal. lia.
    + intros Hwon Hlost. rewrite Hr. unfold terminal_term.
      rewrite Hwon, Hlost. f_equal. lia.
    + intros Hwon Hlost. rewrite Hr. unfold terminal_term.
      rewrite Hwon, Hlost. f_equal. lia.
  - intros env new_state old_state cmd Hok Hneutral Hwon Hnovel Hscore.
    destruct (_calc_reward_returns (_update_hash_cache env new_state)
                new_state old_state cmd (cache_ok_update _ _ Hok))
      as (inv_change & des_change & Hi & Hd & _ & _ & _).
    rewrite (_calc_reward_neutral (_update_hash_cache env new_state)
               _ _ _ _ _ Hneutral Hi Hd).
    rewrite (novel_loop_term _ _ _ _ Hok Hnovel Hi Hd). unfold terminal_term.
    rewrite Hwon, Hscore. done.
Qed.

(** C6. The admissibility bonus.  The verb token that the reward cuts out
    of a command is what stands before the command's first space, and
    every command the translator issues has such a space.  The reward is
    the sum of the other four addends, plus [verb_in_adm] (1) when the
    verb token is a substring of at least one entry of the new state's
    admissible commands, and plus nothing when it is a substring of
    none. *)
Theorem admissibility_bonus :
  (forall verb rest, ~ is_substring " " verb ->
     verb_token (verb +:+ " " +:+ rest) = verb) /\
  (forall env action cmd, reachable env ->
     _conv_to_cmd env action = Ok cmd ->
     exists verb rest,
       cmd = verb +:+ " " +:+ rest /\ ~ is_substring " " verb /\
       verb_token cmd = verb) /\
  (forall env new_state old_state cmd, cache_ok env ->
     exists inv_change des_change,
       _calc_cache_changes (_hash_inv env) = Ok inv_change /\
       _calc_cache_changes (_hash_dsc env) = Ok des_change /\
       let others :=
         score_term new_state old_state
         + bad_action_term (_list_badact env) new_state
         + loop_term inv_change des_change
         + terminal_term new_state in
       ((exists adm, adm ∈ admissible_commands new_state /\
                     is_substring (verb_token cmd) adm) ->
        _calc_reward env new_state old_state cmd
        = Ok (others + verb_in_adm REWARD_DICT)) /\
       ((forall adm, adm ∈ admissible_commands new_state ->
                     ~ is_substring (verb_token cmd) adm) ->
        _calc_reward env new_state old_state cmd = Ok others)) /\
  verb_in_adm REWARD_DICT = 1.
Proof.
  split_and!; try done.
  - apply verb_token_first_space.
  - intros env action cmd Hreach Hc.
    apply (_conv_to_cmd_space env action cmd) in Hc;
      [|by apply reachable_verbobj_ok].
    apply first_space_split in Hc as (verb & rest & -> & Hno).
    exists verb, rest. split_and!; try done.
    by apply verb_token_first_space.
  - intros env new_state old_state cmd Hok.
    destruct (_calc_reward_returns env new_state old_state cmd Hok)
      as (inv_change & des_change & Hi & Hd & _ & _ & Hr).
    exists inv_change, des_change. cbv zeta. split_and!; try done.
    + intros Hhit. rewrite Hr, (admissibility_term_hit _ _ Hhit). done.
    + intros Hmiss. rewrite Hr, (admissibility_term_miss _ _ Hmiss).
      f_equal. lia.
Qed.

(** C3. Translation in the flattened mode.  For every index [i] from 0 to
    [|verbs| * |objects| - 1] the translator returns
    [verbs[i // |objects|] + " " + objects[i % |objects|]]: the lookup in
    the list computed at construction agrees with the formula on the
    index.  The verb index [i // |objects|] and the object index
    [i % |objects|] are within their lists, and every pair of a verb index
    and an object index comes from exactly one index, [a * |objects| + b]:
    the flattening is a bijection onto the pairs, verbs first. *)
Theorem flattened_translation (env : TWGameEnv) :
  reachable env -> _flatten_actspec env = true ->
  let nv := Z.of_nat (length (_list_verb env)) in
  let no := Z.of_nat (length (_list_obj env)) in
  (forall i, 0 <= i < nv * no ->
     0 <= i / no < nv /\ 0 <= i mod no < no /\
     exists v o,
       _list_verb env !! Z.to_nat (i / no) = Some v /\
       _list_obj env !! Z.to_nat (i mod no) = Some o /\
       _conv_to_cmd env (Flat i) = Ok (v +:+ " " +:+ o) /\
       translate_formula (_list_verb env) (_list_obj env) i
       = Some (v +:+ " " +:+ o)) /\
  (forall a b, 0 <= a < nv -> 0 <= b < no ->
     0 <= a * no + b < nv * no /\
     (a * no + b) / no = a /\ (a * no + b) mod no = b /\
     forall j, 0 <= j < nv * no -> j / no = a -> j mod no = b ->
               j = a * no + b).
Proof.
  intros Hreach Hflat nv no. apply reachable_verbobj_ok in Hreach. split.
  - intros i Hi.
    assert (Hno : 0 < no) by nia.
    assert (Hq : 0 <= i / no < nv).
    { split; [apply Z.div_pos; lia|].
      apply Z.div_lt_upper_bound; lia. }
    assert (Hm : 0 <= i mod no < no) by (apply Z.mod_pos_bound; lia).
    split_and!; try lia.
    destruct (lookup_lt_is_Some_2 (_list_verb env) (Z.to_nat (i / no)))
      as [v Hv]; [lia|].
    destruct (lookup_lt_is_Some_2 (_list_obj env) (Z.to_nat (i mod no)))
      as [o Ho]; [lia|].
    exists v, o. split_and!; try done.
    + rewrite _conv_to_cmd_flat by done. apply getitem_front; [lia|].
      rewrite <- (verbobj_product_lookup _ _ _ _ _ _ Hv Ho). f_equal.
      pose proof (Z.div_mod i no) as Hdm. subst no. nia.
    + unfold translate_formula. fold no. by rewrite Hv, Ho.
  - intros a b Ha Hb.
    assert (Hdiv : (a * no + b) / no = a).
    { rewrite Z.div_add_l by lia. rewrite Z.div_small by lia. lia. }
    assert (Hmod : (a * no + b) mod no = b).
    { rewrite Z.add_comm, Z.mod_add by lia. apply Z.mod_small. lia. }
    split_and!; try done; try nia.
    intros j Hj Hja Hjb.
    pose proof (Z.div_mod j no) as Hdm. rewrite Hja, Hjb in Hdm. lia.
Qed.

(** C4, as the code has it.  In the unflattened mode the action
    [(v, 0)] is translated to the verb followed by one space: the object
    token is empty, the separator is still there.  For an object index
    [o >= 1] within the object list the command is
    [verbs[v] + " " + objects[o]]. *)
Theorem unflattened_translation (env : TWGameEnv) (v : Z) (verb : string) :
  _flatten_actspec env = false ->
  0 <= v -> _list_verb env !! Z.to_nat v = Some verb ->
  _conv_to_cmd env (Pair v 0) = Ok (verb +:+ " ") /\
  (forall o obj, 1 <= o -> _list_obj env !! Z.to_nat o = Some obj ->
     _conv_to_cmd env (Pair v o) = Ok (verb +:+ " " +:+ obj)).
Proof.
  intros Hflat Hv Hverb. split.
  - rewrite _conv_to_cmd_pair by done.
    by rewrite (getitem_front _ _ _ Hv Hverb).
  - intros o obj Ho Hobj. rewrite _conv_to_cmd_pair by done.
    rewrite (getitem_front _ _ _ Hv Hverb), bind_Ok.
    destruct (Z.eqb_spec o 0) as [->|_]; [lia|].
    by rewrite (getitem_front _ _ _ (ltac:(lia) : 0 <= o) Hobj).
Qed.

(** C5, as the code has it.  On an environment that was constructed,
    whose word lists are therefore not empty, the translator raises
    [IndexError] exactly when an index is at or beyond the length of its
    list or below minus that length: the flattened index against
    [|verbs| * |objects|], the verb index against [|verbs|], the object
    index against [|objects|]; it raises nothing else, and in every other
    case it returns a command.  So every out-of-range index of the
    non-negative action type is refused.  A negative index from minus the
    length to -1 is not refused: it selects the entry counted from the end
    of the list, as Python list indexing does, and the command is made of
    that entry; so object index [- |objects|] prints [objects[0]], where
    object index 0 prints the empty object. *)
Theorem translation_out_of_range (env : TWGameEnv) :
  reachable env ->
  let nv := Z.of_nat (length (_list_verb env)) in
  let no := Z.of_nat (length (_list_obj env)) in
  0 < nv /\ 0 < no /\
  (_flatten_actspec env = true -> forall i,
     (nv * no <= i \/ i < - (nv * no) ->
      _conv_to_cmd env (Flat i) = Raise IndexError) /\
     (- (nv * no) <= i < 0 ->
      _conv_to_cmd env (Flat i) = _conv_to_cmd env (Flat (nv * no + i))) /\
     (- (nv * no) <= i < nv * no ->
      exists cmd, _conv_to_cmd env (Flat i) = Ok cmd) /\
     (forall e, _conv_to_cmd env (Flat i) = Raise e ->
      e = IndexError /\ (nv * no <= i \/ i < - (nv * no)))) /\
  (_flatten_actspec env = false -> forall v o,
     (nv <= v \/ v < - nv ->
      _conv_to_cmd env (Pair v o) = Raise IndexError) /\
     (- nv <= v < nv -> no <= o \/ o < - no ->
      _conv_to_cmd env (Pair v o) = Raise IndexError) /\
     (0 <= v -> 0 <= o -> nv <= v \/ no <= o ->
      _conv_to_cmd env (Pair v o) = Raise IndexError) /\
     (- nv <= v < 0 ->
      _conv_to_cmd env (Pair v o) = _conv_to_cmd env (Pair (nv + v) o)) /\
     (- no < o < 0 ->
      _conv_to_cmd env (Pair v o) = _conv_to_cmd env (Pair v (no + o))) /\
     (0 <= v < nv -> - no <= o < 0 ->
      exists verb obj,
        _list_verb env !! Z.to_nat v = Some verb /\
        _list_obj env !! Z.to_nat (no + o) = Some obj /\
        _conv_to_cmd env (Pair v o) = Ok (verb +:+ " " +:+ obj)) /\
     (0 <= v < nv -> exists verb,
      _list_verb env !! Z.to_nat v = Some verb /\
      _conv_to_cmd env (Pair v 0) = Ok (verb +:+ " ")) /\
     (- nv <= v < nv -> - no <= o < no ->
      exists cmd, _conv_to_cmd env (Pair v o) = Ok cmd) /\
     (forall e, _conv_to_cmd env (Pair v o) = Raise e ->
      e = IndexError /\
      (nv <= v \/ v < - nv \/ no <= o \/ o < - no))).
Proof.
  intros Hreach nv no.
  destruct (reachable_nonempty env Hreach) as [Hnev Hneo].
  assert (Hnv : 0 < nv)
    by (subst nv; destruct (_list_verb env); [done | simpl; lia]).
  assert (Hno : 0 < no)
    by (subst no; destruct (_list_obj env); [done | simpl; lia]).
  apply reachable_verbobj_ok in Hreach. split_and!; try done.
  - intros Hflat i.
    assert (Hlen : Z.of_nat (length (verbobj_product (_list_verb env)
                                       (_list_obj env))) = nv * no).
    { rewrite verbobj_product_length. subst nv no. lia. }
    rewrite !_conv_to_cmd_flat by done. split_and!.
    + intros Hi. apply getitem_out_of_range. lia.
    + intros Hi. rewrite getitem_back by lia. by rewrite Hlen.
    + intros Hi. apply getitem_in_range. lia.
    + intros e He.
      destruct (Z.le_gt_cases (nv * no) i) as [Hhi|Hhi];
        [rewrite getitem_out_of_range in He by lia;
         injection He as <-; split; [done | by left]|].
      destruct (Z.lt_ge_cases i (- (nv * no))) as [Hlo|Hlo];
        [rewrite getitem_out_of_range in He by lia;
         injection He as <-; split; [done | by right]|].
      destruct (getitem_in_range
                  (verbobj_product (_list_verb env) (_list_obj env)) i)
        as [cmd Hc]; [lia|]. by rewrite Hc in He.
  - intros Hflat v o. rewrite !_conv_to_cmd_pair by done.
    assert (Hobj : - nv <= v < nv -> no <= o \/ o < - no ->
              (verb ← getitem (_list_verb env) v;
               obj ← (if o =? 0 then Ok ""%string
                      else getitem (_list_obj env) o);
               Ok (verb +:+ " " +:+ obj)) = Raise IndexError).
    { intros Hv Ho.
      destruct (getitem_in_range (_list_verb env) v Hv) as [verb ->].
      rewrite bind_Ok. destruct (Z.eqb_spec o 0) as [->|_]; [lia|].
      by rewrite getitem_out_of_range. }
    assert (Hin : - nv <= v < nv -> - no <= o < no ->
              exists cmd,
                (verb ← getitem (_list_verb env) v;
                 obj ← (if o =? 0 then Ok ""%string
                        else getitem (_list_obj env) o);
                 Ok (verb +:+ " " +:+ obj)) = Ok cmd).
    { intros Hv Ho.
      destruct (getitem_in_range (_list_verb env) v Hv) as [verb ->].
      rewrite bind_Ok. destruct (o =? 0); [by eexists|].
      destruct (getitem_in_range (_list_obj env) o Ho) as [obj ->].
      by eexists. }
    split_and!; try done.
    + intros Hv. by rewrite (getitem_out_of_range (_list_verb env) v).
    + intros Hv0 Ho0 [Hv|Ho].
      * rewrite (getitem_out_of_range (_list_verb env) v); [done | by left].
      * destruct (Z.lt_ge_cases v nv) as [Hlt|Hge];
          [apply Hobj; [lia | by left]|].
        rewrite (getitem_out_of_range (_list_verb env) v); [done | by left].
    + intros Hv. by rewrite (getitem_back (_list_verb env)) by lia.
    + intros Ho.
      destruct (Z.eqb_spec o 0) as [E|_]; [lia|].
      destruct (Z.eqb_spec (no + o) 0) as [E|_]; [lia|].
      by rewrite (getitem_back (_list_obj env)) by lia.
    + intros Hv Ho.
      destruct (lookup_lt_is_Some_2 (_list_verb env) (Z.to_nat v))
        as [verb Hverb]; [lia|].
      destruct (lookup_lt_is_Some_2 (_list_obj env) (Z.to_nat (no + o)))
        as [obj Hobj']; [lia|].
      exists verb, obj. split_and!; try done.
      rewrite (getitem_front _ _ _ (proj1 Hv) Hverb), bind_Ok.
      destruct (Z.eqb_spec o 0) as [E|_]; [lia|].
      rewrite (getitem_back (_list_obj env)) by lia. fold no.
      by rewrite (getitem_front (_list_obj env) (no + o) obj) by (lia || done).
    + intros Hv.
      destruct (lookup_lt_is_Some_2 (_list_verb env) (Z.to_nat v))
        as [verb Hverb]; [lia|].
      exists verb. split; [done|].
      by rewrite (getitem_front _ _ _ (proj1 Hv) Hverb).
    + intros e He.
      destruct (Z.le_gt_cases nv v) as [Hhi|Hhi];
        [rewrite (getitem_out_of_range (_list_verb env) v) in He by lia;
         injection He as <-; split; [done | by left]|].
      destruct (Z.lt_ge_cases v (- nv)) as [Hlo|Hlo];
        [rewrite (getitem_out_of_range (_list_verb env) v) in He by lia;
         injection He as <-; split; [done | right; by left]|].
      destruct (Z.le_gt_cases no o) as [Hoh|Hoh];
        [rewrite Hobj in He by lia; injection He as <-;
         split; [done | right; right; by left]|].
      destruct (Z.lt_ge_cases o (- no)) as [Hol|Hol];
        [rewrite Hobj in He by lia; injection He as <-;
         split; [done | right; right; by right]|].
      destruct Hin as [cmd Hc]; [lia | lia |]. by rewrite Hc in He.
Qed.

End Claims.

(** ** The properties at work on the small host *)

Lemma demo_pair_cache_ok : @cache_ok demo_host demo_pair.
Proof. split; reflexivity. Qed.

Lemma demo_pair_reachable : @reachable demo_host demo_pair.
Proof.
  apply (@reach_init demo_host "game.ulx" "verbs.txt" "objs.txt"
           "badact.txt" false false).
  reflexivity.
Qed.

Lemma blank_pair_reachable : @reachable blank_host blank_pair.
Proof.
  apply (@reach_init blank_host "game.ulx" "verbs.txt" "objs.txt"
           "badact.txt" false false).
  reflexivity.
Qed.

Lemma demo_flat_reachable : @reachable demo_host demo_flat.
Proof.
  apply (@reach_init demo_host "game.ulx" "verbs.txt" "objs.txt"
           "badact.txt" false true).
  reflexivity.
Qed.

Lemma loop_stagnation_term_counterexample :
  @cache_ok demo_host (@feed demo_host demo_pair [demo_old; demo_hall]) /\
  @neutral demo_host (@feed demo_host demo_pair [demo_old; demo_hall])
    demo_old "look " /\
  won demo_old = false /\ lost demo_old = false /\
  description demo_hall <> description demo_old /\
  _calc_cache_changes
    (@_hash_inv demo_host
       (@feed demo_host demo_pair
          [demo_old; demo_hall; demo_old; demo_old; demo_old])) = Ok 5 /\
  _calc_cache_changes
    (@_hash_dsc demo_host
       (@feed demo_host demo_pair
          [demo_old; demo_hall; demo_old; demo_old; demo_old])) = Ok 4 /\
  @_calc_reward demo_host
    (@feed demo_host (@feed demo_host demo_pair [demo_old; demo_hall])
       [demo_old; demo_old; demo_old])
    demo_old demo_old "look " = Ok (-3) /\
  @_calc_reward demo_host
    (@feed demo_host (@feed demo_host demo_pair [demo_old; demo_hall])
       [demo_old; demo_old; demo_old])
    demo_old demo_old "look " <> Ok (-2).
Proof.
  split_and!; try reflexivity; try discriminate.
  - split; reflexivity.
  - apply neutral_by_computation; reflexivity.
Qed.

Lemma loop_stagnation_term_witness :
  @_calc_reward demo_host
    (@feed demo_host demo_pair [demo_old; demo_old; demo_old])
    demo_old demo_old "look " = Ok (-2) /\
  @_calc_reward demo_host
    (@feed demo_host (@feed demo_host demo_pair [demo_old; demo_hall])
       [demo_old; demo_old; demo_old])
    demo_old demo_old "look " = Ok (-3).
Proof.
  destruct (@loop_stagnation_term demo_host)
    as (_ & _ & _ & _ & Holder & Hthree).
  split.
  - apply (Hthree demo_pair demo_old demo_old demo_old demo_old
             "look "%string); try reflexivity.
    + exact demo_pair_cache_ok.
    + compute_done.
    + compute_done.
    + apply neutral_by_computation; reflexivity.
  - assert (Hok : @cache_ok demo_host
                    (@feed demo_host demo_pair [demo_old; demo_hall]))
      by (split; reflexivity).
    assert (Hneutral : @neutral demo_host
                         (@feed demo_host demo_pair [demo_old; demo_hall])
                         demo_old "look ")
      by (apply neutral_by_computation; reflexivity).
    exact (proj1 (proj2 (proj2 (proj2 (proj2
             (Holder _ demo_old demo_old demo_old demo_old "look "%string
                Hok eq_refl eq_refl eq_refl eq_refl Hneutral
                eq_refl eq_refl eq_refl)))))).
Defined.

Lemma hash_cache_is_ring_of_ten_witness :
  (2 ∉ @_hash_dsc demo_host (@feed demo_host demo_pair (demo_first :: demo_rest))) /\
  (2 ∈ @_hash_dsc demo_host
         (@feed demo_host demo_pair (take 10 (demo_first :: demo_rest)))) /\
  (2 ∉ @_hash_inv demo_host (@feed demo_host demo_pair (demo_first :: demo_rest))) /\
  length (@_hash_dsc demo_host
            (@feed demo_host demo_pair (demo_first :: demo_rest))) = 10%nat.
Proof.
  destruct (@hash_cache_is_ring_of_ten demo_host) as (_ & Hupd & Hlast & Hgone).
  destruct (Hgone demo_pair demo_first demo_rest demo_pair_cache_ok eq_refl)
    as [Hdsc Hinv].
  destruct Hdsc as [Hd1 Hd2]; [compute_done|].
  destruct Hinv as [Hi1 _]; [compute_done|].
  split_and!; [exact Hd1 | exact Hd2 | exact Hi1 |].
  destruct (Hlast demo_pair (demo_first :: demo_rest) demo_pair_cache_ok)
    as [-> _]; [vm_compute; lia | reflexivity].
Defined.

Lemma flattened_translation_witness :
  @_conv_to_cmd demo_host demo_flat (Flat 4) = Ok "go door"%string /\
  translate_formula ["look"; "go"; "take"] ["EMPTY"; "door"; "key"] 4
  = Some "go door"%string.
Proof.
  destruct (@flattened_translation demo_host demo_flat
              demo_flat_reachable eq_refl) as [Hidx _].
  destruct (Hidx 4) as (_ & _ & v & o & Hv & Ho & Hcmd & Hform);
    [vm_compute; split; congruence|].
  vm_compute in Hv, Ho. injection Hv as <-. injection Ho as <-.
  split; [exact Hcmd | exact Hform].
Defined.

Lemma unflattened_translation_counterexample :
  @_list_verb demo_host demo_pair !! 0%nat = Some "look"%string /\
  @_conv_to_cmd demo_host demo_pair (Pair 0 0) = Ok "look "%string /\
  @_conv_to_cmd demo_host demo_pair (Pair 0 0) <> Ok "look"%string.
Proof. split_and!; [reflexivity | reflexivity | discriminate]. Qed.

Lemma unflattened_translation_witness :
  @_conv_to_cmd demo_host demo_pair (Pair 1 0) = Ok "go "%string /\
  @_conv_to_cmd demo_host demo_pair (Pair 1 2) = Ok "go key"%string.
Proof.
  destruct (@unflattened_translation demo_host demo_pair 1 "go"%string)
    as [Hnone Hobj]; [reflexivity | lia | reflexivity |].
  split; [exact Hnone|].
  apply (Hobj 2 "key"%string); [lia | reflexivity].
Defined.

Lemma translation_out_of_range_counterexample :
  Z.of_nat (length (@_list_verb demo_host demo_flat)
            * length (@_list_obj demo_host demo_flat)) = 9 /\
  ~ (0 <= -1 <= 9 - 1) /\
  @_conv_to_cmd demo_host demo_flat (Flat (-1)) = Ok "take key"%string /\
  @_conv_to_cmd demo_host demo_flat (Flat (-1)) <> Raise IndexError.
Proof. split_and!; [reflexivity | lia | reflexivity | discriminate]. Qed.

Lemma translation_out_of_range_witness :
  @_conv_to_cmd demo_host demo_flat (Flat 9) = Raise IndexError /\
  @_conv_to_cmd demo_host demo_flat (Flat (-10)) = Raise IndexError /\
  @_conv_to_cmd demo_host demo_pair (Pair 3 1) = Raise IndexError /\
  @_conv_to_cmd demo_host demo_pair (Pair 0 3) = Raise IndexError /\
  @_conv_to_cmd demo_host demo_pair (Pair 3 0) = Raise IndexError /\
  @_conv_to_cmd demo_host demo_pair (Pair 0 (-3)) = Ok "look EMPTY"%string /\
  @_conv_to_cmd demo_host demo_pair (Pair 0 0) = Ok "look "%string.
Proof.
  destruct (@translation_out_of_range demo_host demo_flat
              demo_flat_reachable) as (_ & _ & Hflat & _).
  destruct (@translation_out_of_range demo_host demo_pair
              demo_pair_reachable) as (_ & _ & _ & Hpair).
  split_and!.
  - apply (proj1 (Hflat eq_refl 9)). vm_compute. left. congruence.
  - apply (proj1 (Hflat eq_refl (-10))). vm_compute. by right.
  - destruct (Hpair eq_refl 3 1) as (Hverb & _).
    apply Hverb. vm_compute. left. congruence.
  - destruct (Hpair eq_refl 0 3) as (_ & Hobj & _).
    apply Hobj; vm_compute; [split; congruence|].
    left. congruence.
  - destruct (Hpair eq_refl 3 0) as (_ & _ & Hnonneg & _).
    apply Hnonneg; vm_compute; [congruence | congruence |].
    left. congruence.
  - destruct (Hpair eq_refl 0 (-3)) as (_ & _ & _ & _ & _ & Hback & _).
    destruct Hback as (verb & obj & Hv & Ho & Hc);
      [vm_compute; split; congruence | vm_compute; split; congruence |].
    vm_compute in Hv, Ho. injection Hv as <-. injection Ho as <-.
    exact Hc.
  - destruct (Hpair eq_refl 0 0) as (_ & _ & _ & _ & _ & _ & Hzero & _).
    destruct Hzero as (verb & Hv & Hc); [vm_compute; split; congruence|].
    vm_compute in Hv. injection Hv as <-. exact Hc.
Defined.

Lemma admissibility_bonus_witness :
  verb_token "go door" = "go"%string /\
  @_calc_reward demo_host demo_pair demo_old demo_old "go door" = Ok (-4) /\
  @_calc_reward demo_host demo_pair demo_old demo_old "look " = Ok (-5).
Proof.
  destruct (@admissibility_bonus demo_host) as (Htoken & _ & Hterm & _).
  split; [apply (Htoken "go" "door")%string; by apply str_in_false|].
  split.
  - destruct (Hterm demo_pair demo_old demo_old "go door"%string
                demo_pair_cache_ok) as (inv & des & Hi & Hd & Hhit & _).
    vm_compute in Hi, Hd. injection Hi as <-. injection Hd as <-.
    apply Hhit. exists "go door"%string.
    split; [apply list_elem_of_here | by apply str_in_spec].
  - destruct (Hterm demo_pair demo_old demo_old "look "%string
                demo_pair_cache_ok) as (inv & des & Hi & Hd & _ & Hmiss).
    vm_compute in Hi, Hd. injection Hi as <-. injection Hd as <-.
    apply Hmiss. apply (@neutral_by_computation demo_host demo_pair);
      reflexivity.
Defined.

Lemma bad_action_penalty_witness :
  @_calc_reward demo_host demo_pair demo_bad demo_old "look " = Ok (-6) /\
  @_calc_reward demo_host demo_pair demo_old demo_old "look " = Ok (-5).
Proof.
  destruct (@bad_action_penalty demo_host) as (Hterm & _ & _).
  split.
  - destruct (Hterm demo_pair demo_bad demo_old "look "%string
                demo_pair_cache_ok) as (inv & des & Hi & Hd & Hhit & _).
    vm_compute in Hi, Hd. injection Hi as <-. injection Hd as <-.
    apply Hhit. exists "You can't"%string.
    split; [apply list_elem_of_here | by apply str_in_spec].
  - destruct (Hterm demo_pair demo_old demo_old "look "%string
                demo_pair_cache_ok) as (inv & des & Hi & Hd & _ & Hmiss).
    vm_compute in Hi, Hd. injection Hi as <-. injection Hd as <-.
    apply Hmiss. apply (@neutral_by_computation demo_host demo_pair
                          demo_old "look "%string); reflexivity.
Defined.

Lemma score_delta_term_witness :
  @_calc_reward demo_host (@_update_hash_cache demo_host demo_pair demo_new)
    demo_new demo_old "look " = Ok 4.
Proof.
  destruct (@score_delta_term demo_host) as [_ Hscenario].
  apply (Hscenario demo_pair demo_new demo_old "look "%string);
    try reflexivity.
  - exact demo_pair_cache_ok.
  - apply neutral_by_computation; reflexivity.
  - left. compute_done.
Defined.

Lemma terminal_bonus_witness :
  @_calc_reward demo_host (@_update_hash_cache demo_host demo_pair demo_won)
    demo_won demo_old "look " = Ok 104.
Proof.
  destruct (@terminal_bonus demo_host) as (_ & _ & Hscenario).
  apply (Hscenario demo_pair demo_won demo_old "look "%string);
    try reflexivity.
  - exact demo_pair_cache_ok.
  - apply neutral_by_computation; reflexivity.
  - left. compute_done.
Defined.

Lemma hash_cache_survives_reset_witness :
  (exists env1 ts1 env2 ts2,
     @_reset demo_host demo_pair = Ok (env1, ts1) /\
     @_step demo_host env1 (Pair 0 0) = Ok (env2, ts2) /\
     @_hash_dsc demo_host env1 = replicate 10 0 /\
     @curr_TWGym demo_host env1 = Some 1 /\
     @_state demo_host env1
     = Some (demo_state 0 false "A room." "You are carrying nothing.") /\
     @_hash_dsc demo_host env2 = replicate 9 0 ++ [8]) /\
  @_reset (umlaut_host 0) (umlaut_pair 0) = Raise UnicodeEncodeError.
Proof.
  split.
  - destruct (@hash_cache_survives_reset demo_host)
      as (Hinit & _ & Hreset & Hruns & _ & Hcarry).
    edestruct (proj1 (Hruns demo_pair)) as (env1 & Hr); [reflexivity|].
    destruct (Hreset _ _ _ Hr) as (Hd1 & _ & Hg1 & Hs1 & _).
    assert (Hs : exists env2 ts2,
               @_step demo_host env1 (Pair 0 0) = Ok (env2, ts2)).
    { vm_compute in Hr. injection Hr as <-. eexists _, _. reflexivity. }
    destruct Hs as (env2 & ts2 & Hs).
    eexists env1, _, env2, ts2.
    split_and!; [exact Hr | exact Hs | exact Hd1 | exact Hg1 | exact Hs1 |].
    destruct (Hcarry demo_pair (Pair 0 0) env1 _ env2 ts2 Hr Hs)
      as (st & Hst & -> & _).
    vm_compute in Hr. injection Hr as <-.
    vm_compute in Hs. injection Hs as <- <-.
    vm_compute in Hst. injection Hst as <-. reflexivity.
  - destruct (@hash_cache_survives_reset (umlaut_host 0))
      as (_ & _ & _ & Hruns & _).
    apply (proj2 (Hruns (umlaut_pair 0))). reflexivity.
Defined.

(** ** Further properties: the word files *)

Lemma whitespace_nil : Words.whitespace "".
Proof. constructor. Qed.

Lemma whitespace_cons (c : ascii) (s : string) :
  Words.whitespace (String c s) <->
  Words.isspace c = true /\ Words.whitespace s.
Proof.
  unfold Words.whitespace. simpl.
  apply (Forall_cons (fun c => Words.isspace c = true)).
Qed.

Lemma lstrip_spec (s : string) :
  exists pre, s = pre +:+ Words.lstrip s /\ Words.whitespace pre /\
    forall c rest, Words.lstrip s = String c rest -> Words.isspace c = false.
Proof.
  induction s as [|c s (pre & Hs & Hpre & Hfirst)]; simpl.
  - exists ""%string. split_and!; [done | apply whitespace_nil | done].
  - destruct (Words.isspace c) eqn:Hc.
    + exists (String c pre). split_and!; [| by apply whitespace_cons | done].
      change (String c s = String c (pre +:+ Words.lstrip s)). by f_equal.
    + exists ""%string. split_and!; [done | apply whitespace_nil |].
      by intros c' rest [= <- _].
Qed.

Lemma append_nil_l (s : string) : ""%string +:+ s = s.
Proof. reflexivity. Qed.

Lemma append_cons (c : ascii) (s t : string) :
  String c s +:+ t = String c (s +:+ t).
Proof. reflexivity. Qed.

Lemma rstrip_spec (s : string) :
  exists post, s = Words.rstrip s +:+ post /\ Words.whitespace post /\
    forall body c, Words.rstrip s = body +:+ String c "" ->
                   Words.isspace c = false.
Proof.
  induction s as [|c s (post & Hs & Hpost & Hlast)]; simpl.
  - exists ""%string. split_and!; [done | apply whitespace_nil |].
    intros [|? ?] c; discriminate.
  - destruct (Words.isspace c) eqn:Hc;
      destruct (Words.rstrip s) as [|c0 r] eqn:Hr; simpl;
      rewrite ?append_nil_l, ?append_cons in Hs.
    + exists (String c post). subst post.
      split_and!; [done | by apply whitespace_cons |].
      intros [|? ?] c'; discriminate.
    + exists post. split_and!; [by rewrite Hs at 1 | done |].
      intros [|b body] c' Hb;
        rewrite ?append_nil_l, ?append_cons in Hb; [discriminate|].
      injection Hb as -> Hb. by apply (Hlast body c').
    + exists post. subst post. split_and!; [done | done |].
      intros [|b body] c' Hb;
        rewrite ?append_nil_l, ?append_cons in Hb; [congruence|].
      destruct body; discriminate.
    + exists post. split_and!; [by rewrite Hs at 1 | done |].
      intros [|b body] c' Hb;
        rewrite ?append_nil_l, ?append_cons in Hb; [discriminate|].
      injection Hb as -> Hb. by apply (Hlast body c').
Qed.

Lemma lstrip_fixed (s : string) :
  (forall c rest, s = String c rest -> Words.isspace c = false) ->
  Words.lstrip s = s.
Proof.
  destruct s as [|c s]; [done|]. intros Hfirst. simpl.
  by rewrite (Hfirst c s eq_refl).
Qed.

Lemma rstrip_fixed (s : string) :
  (forall body c, s = body +:+ String c "" -> Words.isspace c = false) ->
  Words.rstrip s = s.
Proof.
  induction s as [|c s IH]; [done|]. intros Hlast. simpl.
  rewrite IH.
  - destruct s as [|c0 s]; simpl; [|by rewrite andb_false_r].
    by rewrite (Hlast ""%string c eq_refl).
  - intros body c' ->. apply (Hlast (String c body) c'). done.
Qed.

Lemma lstrip_whitespace (s : string) :
  Words.whitespace s -> Words.lstrip s = ""%string.
Proof.
  induction s as [|c s IH]; [done|].
  intros [Hc Hs]%whitespace_cons. simpl. rewrite Hc. by apply IH.
Qed.

Lemma whitespace_app (s t : string) :
  Words.whitespace (s +:+ t) <-> Words.whitespace s /\ Words.whitespace t.
Proof.
  induction s as [|c s IH].
  - rewrite append_nil_l.
    split; [intros Ht; split; [apply whitespace_nil | done] | by intros [_ ?]].
  - rewrite append_cons, !whitespace_cons, IH. tauto.
Qed.

Lemma strip_spec (s : string) :
  exists pre post,
    s = pre +:+ Words.strip s +:+ post /\
    Words.whitespace pre /\ Words.whitespace post /\
    (forall c rest, Words.strip s = String c rest ->
                    Words.isspace c = false) /\
    (forall body c, Words.strip s = body +:+ String c "" ->
                    Words.isspace c = false).
Proof.
  unfold Words.strip.
  destruct (lstrip_spec s) as (pre & Hs & Hpre & Hfirst).
  destruct (rstrip_spec (Words.lstrip s)) as (post & Hl & Hpost & Hlast).
  exists pre, post. split_and!; try done.
  - rewrite Hs at 1. by rewrite Hl at 1.
  - intros c rest Hr. rewrite Hr, append_cons in Hl. by apply (Hfirst _ _ Hl).
Qed.

Lemma strip_fixed (s : string) :
  (forall c rest, s = String c rest -> Words.isspace c = false) ->
  (forall body c, s = body +:+ String c "" -> Words.isspace c = false) ->
  Words.strip s = s.
Proof.
  intros Hfirst Hlast. unfold Words.strip.
  rewrite (lstrip_fixed s Hfirst). by apply rstrip_fixed.
Qed.

Lemma strip_whitespace (s : string) :
  Words.whitespace s <-> Words.strip s = ""%string.
Proof.
  split.
  - intros Hs. unfold Words.strip. by rewrite lstrip_whitespace.
  - intros Hs. destruct (strip_spec s) as (pre & post & E & Hpre & Hpost & _).
    rewrite Hs, append_nil_l in E. rewrite E. by apply whitespace_app.
Qed.

(** ** Further properties: the cache and the reward *)

Lemma np_sum_le_length (bs : list bool) : np_sum bs <= Z.of_nat (length bs).
Proof. induction bs as [|[] bs IH]; simpl length; simpl np_sum; lia. Qed.

Lemma repeat_count_replicate (n : nat) (h : Z) :
  repeat_count (replicate n h) h = Z.of_nat n.
Proof.
  unfold repeat_count. induction n as [|n IH]; [done|].
  simpl replicate. rewrite filter_cons. case_decide; [|done].
  simpl length. lia.
Qed.

Lemma map_constant {A B} (f : A -> B) (b : B) (l : list A) :
  Forall (fun a => f a = b) l -> map f l = replicate (length l) b.
Proof.
  induction 1 as [|a l Ha _ IH]; [done|]. simpl. by rewrite Ha, IH.
Qed.

Lemma is_substring_refl (s : string) : is_substring s s.
Proof.
  exists ""%string, ""%string. rewrite append_nil_l.
  induction s as [|c s IH]; [done|]. rewrite append_cons. by f_equal.
Qed.

Lemma append_assoc (a b c : string) : (a +:+ b) +:+ c = a +:+ (b +:+ c).
Proof.
  induction a as [|x a IH]; [done|]. rewrite !append_cons. by f_equal.
Qed.

Lemma is_substring_trans (a b c : string) :
  is_substring a b -> is_substring b c -> is_substring a c.
Proof.
  intros (p1 & q1 & ->) (p2 & q2 & ->).
  exists (p2 +:+ p1), (q1 +:+ q2). by rewrite !append_assoc.
Qed.

Lemma is_substring_empty (s : string) : is_substring "" s.
Proof. exists ""%string, s. done. Qed.

Lemma find_from_absent (sub s : string) (i : Z) :
  ~ is_substring sub s -> find_from sub s i = -1.
Proof.
  revert i. induction s as [|c s IH]; intros i Hno;
    apply str_in_false in Hno; cbn [str_in find_from] in *;
    apply orb_false_elim in Hno as [Hp Hrest]; rewrite Hp; [done|].
  apply IH. by apply str_in_false.
Qed.

Section MoreReward.

Context `{Host}.

(** After [k >= 1] turns in a row with one fingerprint that the buffer
    did not hold before, the buffer holds it [min k 10] times. *)
Lemma stuck_count (cache : list Z) (h : Z) (k : nat) :
  length cache = HASH_LIST_LENGTH -> h ∉ cache -> (1 <= k)%nat ->
  _calc_cache_changes (foldl append_pop0 cache (replicate k h))
  = Ok (Z.min (Z.of_nat k) 10).
Proof.
  unfold HASH_LIST_LENGTH. intros Hlen Hh Hk.
  destruct k as [|k]; [lia|].
  rewrite foldl_append_pop0, length_replicate.
  simpl replicate. rewrite replicate_cons_app, app_assoc.
  rewrite drop_app_le by (rewrite length_app, length_replicate; lia).
  rewrite _calc_cache_changes_latest. f_equal.
  rewrite repeat_count_app.
  replace (repeat_count [h] h) with 1
    by (unfold repeat_count; rewrite filter_cons; by case_decide).
  destruct (decide (S k <= 10)%nat) as [Hle|Hgt].
  - rewrite drop_app_le by lia. rewrite repeat_count_app.
    rewrite repeat_count_absent, repeat_count_replicate; [lia|].
    intros Hin. apply Hh. by eapply subseteq_drop.
  - rewrite drop_app_ge by lia. rewrite drop_replicate.
    rewrite repeat_count_replicate. lia.
Qed.

End MoreReward.

(** ** Further properties: the life cycle *)

Section MoreLifeCycle.

Context `{Host}.

Lemma same_config_refl (env : TWGameEnv) : same_config env env.
Proof. by repeat split. Qed.

Lemma same_config_trans (env1 env2 env3 : TWGameEnv) :
  same_config env1 env2 -> same_config env2 env3 -> same_config env1 env3.
Proof.
  unfold same_config.
  intros (?&?&?&?&?&?&?&?&?&?&?) (?&?&?&?&?&?&?&?&?&?&?).
  split_and!; congruence.
Qed.

Lemma _start_game_config (env : TWGameEnv) : same_config env (_start_game env).
Proof.
  unfold _start_game.
  destruct (gym_step _ _) as [g' [[[o sc] d] info]]. by repeat split.
Qed.

Lemma _reset_config (env env' : TWGameEnv) (ts : TimeStep) :
  _reset env = Ok (env', ts) -> same_config env env'.
Proof.
  intros Hr. destruct (_reset_returns _ _ _ Hr) as (-> & _).
  apply (_start_game_config (set_episode_ended env false)).
Qed.

(** A [_step] on a running episode, with the time step it returns. *)
Lemma _step_timestep (env env' : TWGameEnv) (action : Action) (ts : TimeStep) :
  _episode_ended env = false -> _step env action = Ok (env', ts) ->
  exists old_state new_state cmd r,
    _state env = Some old_state /\
    _state env' = Some new_state /\
    is_Some (curr_TWGym env') /\
    _episode_ended env' = is_over old_state /\
    same_config env env' /\
    _conv_to_cmd env action = Ok cmd /\
    _calc_reward env' new_state old_state cmd = Ok r /\
    exists pass_state,
      _conv_pass_state new_state = Ok pass_state /\
      ts = step_result old_state pass_state r.
Proof.
  unfold _step. intros Hend Hs. rewrite Hend in Hs.
  apply bind_Ok_inv in Hs as (old & Hold & Hs).
  apply bind_Ok_inv in Hs as (cmd & Hcmd & Hs).
  apply bind_Ok_inv in Hs as (g & Hg & Hs).
  destruct (gym_step g cmd) as [g' [[[o sc] d] info]] eqn:Hgym.
  apply bind_Ok_inv in Hs as (ps & Hps & Hs).
  apply bind_Ok_inv in Hs as (r & Hr & Hs).
  exists old, (_conv_to_state o sc d info), cmd, r.
  destruct (_state env) as [st|]; simpl in Hold;
    [injection Hold as ->|discriminate].
  unfold step_result, is_over.
  destruct (done old || won old || lost old); simpl in Hs;
    rewrite ?Hend in Hs; injection Hs as <- <-;
    (split_and!; [done | done | done | done | by repeat split | done | done
                 | by exists ps]).
Qed.

Lemma _step_config (env env' : TWGameEnv) (action : Action) (ts : TimeStep) :
  _step env action = Ok (env', ts) -> same_config env env'.
Proof.
  intros Hs. destruct (_episode_ended env) eqn:Hend.
  - unfold _step in Hs. rewrite Hend in Hs. by apply _reset_config in Hs.
  - by destruct (_step_timestep _ _ _ _ Hend Hs)
      as (old & new & cmd & r & _ & _ & _ & _ & Hcfg & _).
Qed.

Lemma reachable_config (env : TWGameEnv) :
  reachable env ->
  exists gp pv po pb dbg fl env0,
    __init__ gp pv po pb dbg fl = Ok env0 /\ same_config env0 env.
Proof.
  induction 1 as [gp pv po pb dbg fl env Hi
                 |env env' ts _ (gp & pv & po & pb & dbg & fl & e0 & Hi & IH) Hr
                 |env action env' ts _
                    (gp & pv & po & pb & dbg & fl & e0 & Hi & IH) Hs].
  - exists gp, pv, po, pb, dbg, fl, env. split; [done|].
    apply same_config_refl.
  - exists gp, pv, po, pb, dbg, fl, e0. split; [done|].
    eapply same_config_trans; [exact IH | by eapply _reset_config].
  - exists gp, pv, po, pb, dbg, fl, e0. split; [done|].
    eapply same_config_trans; [exact IH | by eapply _step_config].
Qed.

(** The game and the state are set together. *)
Lemma reachable_game (env : TWGameEnv) :
  reachable env -> is_Some (_state env) -> is_Some (curr_TWGym env).
Proof.
  induction 1 as [gp pv po pb dbg fl env Hi
                 |env env' ts _ _ Hr|env action env' ts _ _ Hs]; intros Hst.
  - destruct (__init___returns _ _ _ _ _ _ _ Hi)
      as (_ & _ & (_ & _ & _ & Hnone & _) & _).
    rewrite Hnone in Hst. by destruct Hst.
  - destruct (_reset_returns _ _ _ Hr) as (-> & _). unfold _start_game.
    by destruct (gym_step _ _) as [g' [[[o sc] d] info]].
  - destruct (_episode_ended env) eqn:Hend.
    + unfold _step in Hs. rewrite Hend in Hs.
      destruct (_reset_returns _ _ _ Hs) as (-> & _). unfold _start_game.
      by destruct (gym_step _ _) as [g' [[[o sc] d] info]].
    + by destruct (_step_timestep _ _ _ _ Hend Hs)
        as (old & new & cmd & r & _ & _ & Hg & _).
Qed.

(** A [_step] on a running episode, once the action is translated, goes
    as the conversion of the gym's answer into the observation array
    goes. *)
Lemma _step_runs (env : TWGameEnv) (action : Action) (old_state : State)
    (cmd : string) (g : Gym) :
  cache_ok env -> _episode_ended env = false ->
  _state env = Some old_state -> curr_TWGym env = Some g ->
  _conv_to_cmd env action = Ok cmd ->
  (forall pass_state,
     _conv_pass_state (answer_state g cmd) = Ok pass_state ->
     exists env' ts, _step env action = Ok (env', ts)) /\
  (forall e,
     _conv_pass_state (answer_state g cmd) = Raise e ->
     _step env action = Raise e).
Proof.
  intros Hok Hend Hst Hg Hcmd. unfold _step, answer_state.
  rewrite Hend, Hst. simpl.
  assert (Hcmd' : forall b : bool,
            _conv_to_cmd (if b then set_episode_ended env true else env)
              action = Ok cmd) by (by intros []).
  rewrite Hcmd', bind_Ok.
  assert (Hg' : forall b : bool,
            curr_TWGym (if b then set_episode_ended env true else env)
            = Some g) by (by intros []).
  rewrite Hg'. simpl.
  destruct (gym_step g cmd) as [g' [[[o sc] d] info]].
  split.
  - intros ps ->. rewrite bind_Ok.
    match goal with
    | |- context [_calc_reward ?e ?n ?o ?c] =>
        destruct (_calc_reward_returns e n o c)
          as (inv & des & _ & _ & _ & _ & ->)
    end.
    + destruct (done old_state || won old_state || lost old_state);
        apply cache_ok_update; exact Hok.
    + rewrite bind_Ok.
      destruct (done old_state || won old_state || lost old_state); simpl;
        rewrite ?Hend; by eexists _, _.
  - by intros e ->.
Qed.

End MoreLifeCycle.

(** ** Further properties: command translation *)

Lemma verb_token_first_word (w rest obj : string) :
  ~ is_substring " " w ->
  verb_token ((w +:+ " " +:+ rest) +:+ " " +:+ obj) = w.
Proof.
  intros Hno. rewrite append_assoc.
  change (" " +:+ rest +:+ " " +:+ obj)%string
    with (" " +:+ (rest +:+ " " +:+ obj))%string.
  by apply verb_token_first_space.
Qed.

Section MoreTranslation.

Context `{Host}.

Lemma _conv_to_cmd_flat_index (env : TWGameEnv) (a b : nat) (v o : string) :
  verbobj_ok env -> _flatten_actspec env = true ->
  _list_verb env !! a = Some v -> _list_obj env !! b = Some o ->
  _conv_to_cmd env (Flat (Z.of_nat a * Z.of_nat (length (_list_obj env))
                          + Z.of_nat b))
  = Ok (v +:+ " " +:+ o).
Proof.
  intros Hvo Hflat Hv Ho. rewrite _conv_to_cmd_flat by done.
  apply getitem_front; [lia|].
  rewrite <- (verbobj_product_lookup _ _ _ _ _ _ Hv Ho). f_equal. lia.
Qed.

Lemma getitem_nil {A} (i : Z) : getitem (@nil A) i = Raise IndexError.
Proof. apply getitem_out_of_range. simpl. lia. Qed.

Lemma reachable_action_spec (env : TWGameEnv) :
  reachable env ->
  _action_spec env =
    if _flatten_actspec env
    then {| spec_minimum := [0];
            spec_maximum :=
              [Z.of_nat (length (_list_verb env) * length (_list_obj env))
               - 1] |}
    else {| spec_minimum := [0; 0];
            spec_maximum := [Z.of_nat (length (_list_verb env)) - 1;
                             Z.of_nat (length (_list_obj env)) - 1] |}.
Proof.
  intros Hreach.
  destruct (reachable_config env Hreach)
    as (gp & pv & po & pb & dbg & fl & env0 & Hi & Hcfg).
  destruct Hcfg as (_ & _ & _ & _ & _ & -> & -> & -> & _ & _ & ->).
  destruct (__init___returns _ _ _ _ _ _ _ Hi)
    as ((_ & _ & _ & _ & _ & ->) & (-> & -> & _) & _ & Hspec).
  destruct fl; apply new_BoundedArraySpec_returns in Hspec as [-> _];
    [|done].
  by rewrite verbobj_product_length.
Qed.

End MoreTranslation.

(** ** Further properties of the code *)

(** X1. [strip] trims both ends and nothing else: the text is the
    stripped text between a run of white space in front and a run of white
    space behind, the stripped text neither begins nor ends with a white
    space character, and stripping it again changes nothing.  A text of
    white space only, and no other, strips to the empty string. *)
Theorem strip_trims_both_ends (s : string) :
  (exists pre post,
     s = pre +:+ Words.strip s +:+ post /\
     Words.whitespace pre /\ Words.whitespace post) /\
  (forall c rest, Words.strip s = String c rest -> Words.isspace c = false) /\
  (forall body c, Words.strip s = body +:+ String c "" ->
                  Words.isspace c = false) /\
  Words.strip (Words.strip s) = Words.strip s /\
  (Words.strip s = ""%string <-> Words.whitespace s).
Proof.
  destruct (strip_spec s) as (pre & post & Hs & Hpre & Hpost & Hfirst & Hlast).
  split_and!; eauto.
  - by apply strip_fixed.
  - symmetry. apply strip_whitespace.
Qed.

(** X2. [_get_words] keeps one word per line, in the order of the lines:
    a blank line is not skipped, it gives the empty word, and the empty
    word comes from blank lines only.  Reading a second time what was
    read changes nothing. *)
Theorem get_words_keeps_every_line (lines : list string) :
  length (Words._get_words lines) = length lines /\
  (forall i line, lines !! i = Some line ->
     Words._get_words lines !! i = Some (Words.strip line)) /\
  (forall i, Words._get_words lines !! i = Some ""%string <->
     exists line, lines !! i = Some line /\ Words.whitespace line) /\
  Words._get_words (Words._get_words lines) = Words._get_words lines.
Proof.
  unfold Words._get_words. split_and!.
  - apply length_map.
  - intros i line Hl. change (map Words.strip lines) with (Words.strip <$> lines).
    by rewrite list_lookup_fmap, Hl.
  - intros i. change (map Words.strip lines) with (Words.strip <$> lines).
    rewrite list_lookup_fmap. destruct (lines !! i) as [line|]; simpl.
    + split.
      * intros [= Hs]. exists line. split; [done|]. by apply strip_whitespace.
      * intros (line' & [= <-] & Hw). f_equal. by apply strip_whitespace.
    + split; [done | by intros (line' & ? & _)].
  - rewrite map_map. apply map_ext. intros line.
    destruct (strip_spec line) as (_ & _ & _ & _ & _ & Hfirst & Hlast).
    by apply strip_fixed.
Qed.

(** X3. [_calc_cache_changes] raises [IndexError] on an empty cache; on
    any other cache it returns a count between 1 and the length of the
    cache. *)
Theorem cache_changes_range (cache : list Z) :
  (cache = [] -> _calc_cache_changes cache = Raise IndexError) /\
  (cache <> [] ->
   exists n, _calc_cache_changes cache = Ok n /\
             1 <= n <= Z.of_nat (length cache)).
Proof.
  split.
  - by intros ->.
  - intros Hne.
    destruct (_calc_cache_changes_returns cache Hne) as (l & h & E & Hc).
    eexists. split; [exact Hc|]. split.
    + rewrite E. apply repeat_count_latest_pos.
    + rewrite <- np_sum_count.
      rewrite <- (length_map (fun x => x =? h) cache).
      apply np_sum_le_length.
Qed.

Section Extras.

Context `{Host}.

(** X4. Whatever the states and the command, the reward of an environment
    with its ten-entry buffers lies between the score difference less 106
    and the score difference plus 102. *)
Theorem reward_range (env : TWGameEnv) (new_state old_state : State)
    (cmd : string) :
  cache_ok env ->
  exists r, _calc_reward env new_state old_state cmd = Ok r /\
    score new_state - score old_state - 106 <= r
      <= score new_state - score old_state + 102.
Proof.
  intros Hok.
  destruct (_calc_reward_returns env new_state old_state cmd Hok)
    as (inv & des & _ & _ & Hi & Hd & ->).
  eexists. split; [done|].
  assert (Hloop : -5 <= loop_term inv des <= 1).
  { unfold loop_term. rewrite min_list_3. simpl.
    destruct (Z.leb_spec inv 1), (Z.leb_spec des 1); simpl; lia. }
  assert (Hbad : -1 <= bad_action_term (_list_badact env) new_state <= 0)
    by (unfold bad_action_term; case_match; simpl; lia).
  assert (Hterm : -100 <= terminal_term new_state <= 100)
    by (unfold terminal_term; repeat case_match; simpl; lia).
  assert (Hadm : 0 <= admissibility_term cmd new_state <= 1)
    by (unfold admissibility_term; case_match; simpl; lia).
  unfold score_term. lia.
Qed.

(** X5. Staying put costs more each turn, up to the cap.  When [k >= 1]
    turns in a row show one description and one inventory whose
    fingerprints the buffers did not hold before, both counts are
    [min k 10]; with nothing else bearing on it, the reward of the last of
    these turns is [+1] for [k = 1] and [- min (k - 1) 5] from the second
    turn on. *)
Theorem repeated_turns_escalate (env : TWGameEnv) (states : list State)
    (dsc inv : string) (new_state old_state : State) (cmd : string) :
  cache_ok env -> states <> [] ->
  Forall (fun st => description st = dsc) states ->
  Forall (fun st => inventory st = inv) states ->
  hash dsc ∉ _hash_dsc env -> hash inv ∉ _hash_inv env ->
  neutral env new_state cmd ->
  won new_state = false -> lost new_state = false ->
  score new_state = score old_state ->
  let k := Z.of_nat (length states) in
  _calc_cache_changes (_hash_dsc (feed env states)) = Ok (Z.min k 10) /\
  _calc_cache_changes (_hash_inv (feed env states)) = Ok (Z.min k 10) /\
  _calc_reward (feed env states) new_state old_state cmd
  = Ok (if k =? 1 then 1 else - Z.min (k - 1) 5).
Proof.
  intros [Hld Hli] Hne Hdsc Hinv Hnd Hni Hneutral Hwon Hlost Hscore k.
  assert (Hk : (1 <= length states)%nat) by (destruct states; simpl; [done|lia]).
  assert (Hcd : _calc_cache_changes (_hash_dsc (feed env states))
                = Ok (Z.min k 10)).
  { rewrite hash_dsc_feed, <- (length_map (fun st => hash (description st))),
      <- foldl_append_pop0.
    rewrite (map_constant _ (hash dsc)).
    - by apply stuck_count.
    - eapply Forall_impl; [exact Hdsc|]. by intros st ->. }
  assert (Hci : _calc_cache_changes (_hash_inv (feed env states))
                = Ok (Z.min k 10)).
  { rewrite hash_inv_feed, <- (length_map (fun st => hash (inventory st))),
      <- foldl_append_pop0.
    rewrite (map_constant _ (hash inv)).
    - by apply stuck_count.
    - eapply Forall_impl; [exact Hinv|]. by intros st ->. }
  split_and!; try done.
  assert (Hneutral' : neutral (feed env states) new_state cmd).
  { destruct Hneutral as [Hbad Hadm]. split; [|done].
    assert (Hb : _list_badact (feed env states) = _list_badact env);
      [|by rewrite Hb].
    unfold feed. clear. revert env.
    induction states as [|st states IH]; intros env; [done|].
    simpl. by rewrite IH. }
  rewrite (_calc_reward_neutral _ _ _ _ _ _ Hneutral' Hci Hcd).
  unfold terminal_term. rewrite Hwon, Hlost, Hscore. f_equal.
  unfold loop_term. rewrite min_list_3. simpl.
  destruct (Z.eqb_spec k 1) as [Hk1|Hk1];
    destruct (Z.leb_spec (Z.min k 10) 1); simpl; lia.
Qed.

(** X6. An empty string in the bad-action list, which a blank line of the
    bad-action file gives, makes every turn a punished one: the reward
    is the other four addends less [useless_act_pun], whatever the game
    answered. *)
Theorem blank_bad_action_always_punished (env : TWGameEnv)
    (new_state old_state : State) (cmd : string) :
  cache_ok env -> ""%string ∈ _list_badact env ->
  exists inv_change des_change,
    _calc_cache_changes (_hash_inv env) = Ok inv_change /\
    _calc_cache_changes (_hash_dsc env) = Ok des_change /\
    _calc_reward env new_state old_state cmd
    = Ok (score_term new_state old_state
          + loop_term inv_change des_change
          + terminal_term new_state
          + admissibility_term cmd new_state
          - useless_act_pun REWARD_DICT).
Proof.
  intros Hok Hblank.
  destruct (_calc_reward_returns env new_state old_state cmd Hok)
    as (inv & des & Hi & Hd & _ & _ & ->).
  exists inv, des. split_and!; try done.
  rewrite bad_action_term_hit; [f_equal; lia|].
  exists ""%string. split; [done | apply is_substring_empty].
Qed.

(** X7. [_find_verb_in_list] matches by substring, so a verb that occurs
    inside another verb is found wherever the longer one is; nothing is
    found in an empty list, and the empty verb is found in every list that
    is not empty. *)
Theorem shorter_verb_found_more_often (short long : string)
    (adm_cmd : list string) :
  is_substring short long ->
  (_find_verb_in_list long adm_cmd = true ->
   _find_verb_in_list short adm_cmd = true) /\
  _find_verb_in_list long [] = false /\
  (_find_verb_in_list "" adm_cmd = true <-> adm_cmd <> []).
Proof.
  intros Hsub. split_and!.
  - rewrite !_find_verb_in_list_spec. intros (adm & Hel & Hin).
    exists adm. split; [done|]. by eapply is_substring_trans.
  - done.
  - rewrite _find_verb_in_list_spec. split.
    + intros (adm & Hel & _) ->. by apply elem_of_nil in Hel.
    + destruct adm_cmd as [|adm l]; [done|]. intros _. exists adm.
      split; [apply list_elem_of_here | apply is_substring_empty].
Qed.

(** X8. For a command without a space, the cut [cmd[:cmd.find(" ")]]
    takes everything but the last character: [find] answers -1 and the
    slice stops one short of the end. *)
Theorem verb_token_without_space (body : string) (c : ascii) :
  ~ is_substring " " (body +:+ String c "") ->
  find (body +:+ String c "") " " = -1 /\
  verb_token (body +:+ String c "") = body.
Proof.
  intros Hno. unfold verb_token, find.
  rewrite (find_from_absent _ _ 0 Hno). split; [done|].
  unfold slice_to. cbv zeta.
  replace (0 <=? -1) with false by done.
  replace (Z.to_nat (Z.of_nat (String.length (body +:+ String c "")) + -1))
    with (String.length body).
  - apply substring_app_length.
  - assert (String.length (body +:+ String c "") = S (String.length body));
      [|lia].
    clear. induction body as [|b body IH]; [done|].
    rewrite append_cons. simpl. by rewrite IH.
Qed.

End Extras.

Section ExtrasTranslation.

Context `{Host}.

(** X9. The verb token cut out of a translated command is the verb the
    action chose, provided that verb has no space in it; of a verb of
    several words it is the first word only.  This holds in the
    unflattened mode for the verb at the verb index, and in the flattened
    mode for the verb at [i // |objects|]. *)
Theorem verb_token_of_translation (env : TWGameEnv) (action : Action)
    (verb cmd : string) :
  reachable env ->
  match action with
  | Pair v o =>
      _flatten_actspec env = false /\ getitem (_list_verb env) v = Ok verb
  | Flat i =>
      _flatten_actspec env = true /\
      0 <= i < Z.of_nat (length (_list_verb env))
               * Z.of_nat (length (_list_obj env)) /\
      _list_verb env !! Z.to_nat (i / Z.of_nat (length (_list_obj env)))
      = Some verb
  end ->
  _conv_to_cmd env action = Ok cmd ->
  (exists obj, cmd = verb +:+ " " +:+ obj) /\
  (~ is_substring " " verb -> verb_token cmd = verb) /\
  (forall w rest, verb = w +:+ " " +:+ rest -> ~ is_substring " " w ->
     verb_token cmd = w).
Proof.
  intros Hreach Haction Hcmd. apply reachable_verbobj_ok in Hreach.
  assert (Hobj : exists obj, cmd = verb +:+ " " +:+ obj).
  { destruct action as [i|v o].
    - destruct Haction as (Hflat & Hi & Hverb).
      set (no := Z.of_nat (length (_list_obj env))) in *.
      assert (Hno : 0 < no) by nia.
      assert (Hm : 0 <= i mod no < no) by (apply Z.mod_pos_bound; lia).
      assert (Hq : 0 <= i / no) by (apply Z.div_pos; lia).
      destruct (lookup_lt_is_Some_2 (_list_obj env) (Z.to_nat (i mod no)))
        as [obj Hobj]; [lia|].
      pose proof (_conv_to_cmd_flat_index env _ _ _ _ Hreach Hflat Hverb Hobj)
        as Hc.
      replace (Z.of_nat (Z.to_nat (i / no))
               * Z.of_nat (length (_list_obj env))
               + Z.of_nat (Z.to_nat (i mod no))) with i in Hc.
      + rewrite Hc in Hcmd. injection Hcmd as <-. by exists obj.
      + pose proof (Z.div_mod i no). fold no. lia.
    - destruct Haction as (Hflat & Hverb).
      rewrite _conv_to_cmd_pair, Hverb, bind_Ok in Hcmd by done.
      apply bind_Ok_inv in Hcmd as (obj & _ & Hcmd).
      injection Hcmd as <-. by exists obj. }
  destruct Hobj as (obj & ->). split_and!.
  - by exists obj.
  - intros Hno. by apply verb_token_first_space.
  - intros w rest -> Hno. by apply verb_token_first_word.
Qed.


(** X11. Every action within the bounds of the action spec is translated:
    for an environment a program can hold, [_conv_to_cmd] returns a
    command for each action between the minimum and the maximum of
    [_action_spec]. *)
Theorem spec_actions_translate (env : TWGameEnv) (action : Action) :
  reachable env -> within_spec (_action_spec env) action ->
  exists cmd, _conv_to_cmd env action = Ok cmd.
Proof.
  intros Hreach Hin. rewrite (reachable_action_spec env Hreach) in Hin.
  apply reachable_verbobj_ok in Hreach.
  destruct (_flatten_actspec env) eqn:Hflat.
  - destruct action as [i|v o]; [|done]. simpl in Hin.
    rewrite _conv_to_cmd_flat by done.
    apply getitem_in_range. rewrite verbobj_product_length. lia.
  - destruct action as [i|v o]; [done|]. simpl in Hin.
    destruct Hin as [Hv Ho]. rewrite _conv_to_cmd_pair by done.
    destruct (getitem_in_range (_list_verb env) v) as [verb ->]; [lia|].
    rewrite bind_Ok. destruct (o =? 0); [by eexists|].
    destruct (getitem_in_range (_list_obj env) o) as [obj ->]; [lia|].
    by eexists.
Qed.


End ExtrasTranslation.

Section ExtrasLifeCycle.

Context `{Host}.

(** X13. A blank verb always earns the admissibility bonus.  When the
    verb at the verb index is the empty string, which a blank line of the
    verb file gives, the command starts with the space, its verb token is
    empty, and [_find_verb_in_list] finds it in every list of admissible
    commands that is not empty. *)
Theorem blank_verb_always_admissible (env : TWGameEnv) (v o : Z)
    (cmd : string) (adm_cmd : list string) :
  _flatten_actspec env = false ->
  getitem (_list_verb env) v = Ok ""%string ->
  _conv_to_cmd env (Pair v o) = Ok cmd ->
  (exists obj, cmd = " " +:+ obj) /\
  verb_token cmd = ""%string /\
  (_find_verb_in_list (verb_token cmd) adm_cmd = true <-> adm_cmd <> []).
Proof.
  intros Hflat Hverb Hcmd.
  rewrite _conv_to_cmd_pair, Hverb, bind_Ok in Hcmd by done.
  apply bind_Ok_inv in Hcmd as (obj & _ & Hcmd). injection Hcmd as <-.
  assert (Htoken : verb_token ("" +:+ " " +:+ obj) = ""%string).
  { apply verb_token_first_space. intros ([|? ?] & ? & ?); discriminate. }
  split_and!; [by exists obj | done |].
  rewrite Htoken, _find_verb_in_list_spec. split.
  - intros (adm & Hel & _) ->. by apply elem_of_nil in Hel.
  - destruct adm_cmd as [|adm l]; [done|]. intros _. exists adm.
    split; [apply list_elem_of_here | apply is_substring_empty].
Qed.

(** X14. Where a [_step] on a running episode fails.  Before any game
    was started it raises [TypeError].  Once a state is there, the game
    is there too; the step raises what [_conv_to_cmd] raises for the
    action; and when [_conv_to_cmd] returns a command, the step returns
    if the description and the inventory the gym answers with are ASCII
    text and raises [UnicodeEncodeError] if one of them is not: the cache
    update and the reward never raise. *)
Theorem step_failures (env : TWGameEnv) (action : Action) :
  reachable env -> _episode_ended env = false ->
  (_state env = None -> _step env action = Raise TypeError) /\
  (is_Some (_state env) ->
   exists g, curr_TWGym env = Some g /\
     (forall e, _conv_to_cmd env action = Raise e ->
                _step env action = Raise e) /\
     (forall cmd, _conv_to_cmd env action = Ok cmd ->
        (is_ascii (description (answer_state g cmd)) = true ->
         is_ascii (inventory (answer_state g cmd)) = true ->
         exists env' ts, _step env action = Ok (env', ts)) /\
        (is_ascii (description (answer_state g cmd)) = false \/
         is_ascii (inventory (answer_state g cmd)) = false ->
         _step env action = Raise UnicodeEncodeError))).
Proof.
  intros Hreach Hend. split.
  - intros Hst. unfold _step. by rewrite Hend, Hst.
  - intros Hst. destruct (reachable_game env Hreach Hst) as [g Hg].
    destruct Hst as [old Hold]. exists g. split; [done|]. split.
    + intros e Hc. unfold _step. rewrite Hend, Hold. simpl.
      assert (Hc' : forall b : bool,
                _conv_to_cmd (if b then set_episode_ended env true else env)
                  action = Raise e) by (by intros []).
      by rewrite Hc'.
    + intros cmd Hc.
      destruct (_step_runs env action old cmd g
                  (reachable_cache_ok env Hreach) Hend Hold Hg Hc)
        as [Hok Herr].
      unfold _conv_pass_state, to_S500 in Hok, Herr. split.
      * intros Hd Hi. rewrite Hd, Hi in Hok. by eapply Hok.
      * intros Hbad. apply Herr.
        destruct (is_ascii (description _)); [|done].
        by destruct Hbad as [?| ->].
Qed.

(** X15. How an episode ends.  A [_step] on a running episode returns a
    last time step, with discount 0, exactly when the state it started
    from was done, won or lost, and a middle time step with discount 1
    otherwise; it marks the episode as ended in the first case only.  A
    [_step] on an ended episode ignores the action and restarts the game:
    it returns a first time step with reward 0 and discount 1, on an
    episode that runs again, whose gym and state are those of a game
    started anew from the game file. *)
Theorem episode_end_protocol (env env' : TWGameEnv) (action : Action)
    (ts : TimeStep) :
  _step env action = Ok (env', ts) ->
  (_episode_ended env = true ->
   step_type ts = FIRST /\ ts_reward ts = 0 /\ discount ts = 1 /\
   _episode_ended env' = false /\
   curr_TWGym env' = Some (fresh_game (_game_path env)).1 /\
   _state env' = Some (fresh_game (_game_path env)).2 /\
   forall other, _step env other = Ok (env', ts)) /\
  (_episode_ended env = false ->
   exists old_state,
     _state env = Some old_state /\
     _episode_ended env' = is_over old_state /\
     step_type ts = (if is_over old_state then LAST else MID) /\
     discount ts = (if is_over old_state then 0 else 1)).
Proof.
  intros Hs. split; intros Hend.
  - assert (Hr : _reset env = Ok (env', ts))
      by (unfold _step in Hs; by rewrite Hend in Hs).
    destruct (_reset_hash _ _ _ Hr) as (_ & _ & Hflag).
    destruct (_reset_fresh _ _ _ Hr) as (Hg & Hst & ps & _ & ->).
    split_and!; try done.
    intros other. unfold _step. by rewrite Hend.
  - destruct (_step_timestep _ _ _ _ Hend Hs)
      as (old & new & cmd & r & Hold & _ & _ & Hflag & _ & _ & _
          & ps & _ & ->).
    exists old. split_and!; try done;
      unfold step_result; by destruct (is_over old).
Qed.

(** X16. A win is reported one step late.  The step that reaches a won
    state from a state that was not over returns a middle time step and
    leaves the episode running; whatever step follows returns the last
    time step; and the step after that one restarts the game: it returns
    a first time step with reward 0 on a gym and a state started anew
    from the game file. *)
Theorem win_reported_one_step_late (env env1 : TWGameEnv) (action : Action)
    (ts1 : TimeStep) (old_state new_state : State) :
  _episode_ended env = false ->
  _state env = Some old_state -> is_over old_state = false ->
  _step env action = Ok (env1, ts1) ->
  _state env1 = Some new_state -> won new_state = true ->
  step_type ts1 = MID /\ _episode_ended env1 = false /\
  forall action2 env2 ts2, _step env1 action2 = Ok (env2, ts2) ->
    step_type ts2 = LAST /\ _episode_ended env2 = true /\
    forall action3 env3 ts3, _step env2 action3 = Ok (env3, ts3) ->
      step_type ts3 = FIRST /\ ts_reward ts3 = 0 /\
      _episode_ended env3 = false /\
      curr_TWGym env3 = Some (fresh_game (_game_path env)).1 /\
      _state env3 = Some (fresh_game (_game_path env)).2.
Proof.
  intros Hend Hold Hover Hs Hnew Hwon.
  destruct (_step_timestep _ _ _ _ Hend Hs)
    as (old & new & cmd & r & Hold' & Hnew' & _ & Hflag & Hcfg1 & _ & _
        & ps & _ & ->).
  rewrite Hold in Hold'. injection Hold' as <-.
  rewrite Hnew in Hnew'. injection Hnew' as <-.
  rewrite Hover in Hflag.
  split_and!; [unfold step_result; by rewrite Hover | done |].
  intros action2 env2 ts2 Hs2.
  destruct (_step_timestep _ _ _ _ Hflag Hs2)
    as (old2 & new2 & cmd2 & r2 & Hold2 & _ & _ & Hflag2 & Hcfg2 & _ & _
        & ps2 & _ & ->).
  rewrite Hnew in Hold2. injection Hold2 as <-.
  assert (Hover2 : is_over new_state = true)
    by (unfold is_over; rewrite Hwon; by destruct (done new_state)).
  rewrite Hover2 in Hflag2.
  split_and!; [unfold step_result; by rewrite Hover2 | done |].
  intros action3 env3 ts3 Hs3.
  unfold _step in Hs3. rewrite Hflag2 in Hs3.
  destruct (_reset_hash _ _ _ Hs3) as (_ & _ & Hflag3).
  destruct (_reset_fresh _ _ _ Hs3) as (Hg & Hst & ps3 & _ & ->).
  destruct Hcfg1 as (Hp1 & _). destruct Hcfg2 as (Hp2 & _).
  rewrite Hp2, Hp1 in Hg, Hst. by split_and!.
Qed.

(** X17. What the constructor read stays as it was read.  In every
    environment a program can hold the three word lists are those of the
    files at the environment's paths, the flattened command list and the
    action spec are the ones computed from them, and neither [_reset] nor
    [_step] changes a path, a flag, a word list, the command list or the
    action spec. *)
Theorem configuration_is_fixed (env : TWGameEnv) :
  reachable env ->
  _list_verb env = _get_words (_path_verb env) /\
  _list_obj env = _get_words (_path_obj env) /\
  _list_badact env = _get_words (_path_badact env) /\
  _list_verbobj env =
    (if _flatten_actspec env
     then Some (verbobj_product (_list_verb env) (_list_obj env))
     else None) /\
  (forall env' ts, _reset env = Ok (env', ts) -> same_config env env') /\
  (forall action env' ts,
     _step env action = Ok (env', ts) -> same_config env env').
Proof.
  intros Hreach.
  destruct (reachable_config env Hreach)
    as (gp & pv & po & pb & dbg & fl & env0 & Hi & Hcfg).
  pose proof (reachable_verbobj_ok env Hreach) as Hvo.
  destruct Hcfg as (_ & Hpv & Hpo & Hpb & _ & _ & Hv & Ho & Hb & _ & _).
  destruct (__init___returns _ _ _ _ _ _ _ Hi)
    as ((_ & Hpv0 & Hpo0 & Hpb0 & _) & (Hv0 & Ho0 & Hb0 & _) & _).
  split_and!.
  - by rewrite Hv, Hpv, Hv0, Hpv0.
  - by rewrite Ho, Hpo, Ho0, Hpo0.
  - by rewrite Hb, Hpb, Hb0, Hpb0.
  - exact Hvo.
  - intros env' ts. apply _reset_config.
  - intros action env' ts. apply _step_config.
Qed.

End ExtrasLifeCycle.

(** ** The further properties at work *)

Lemma strip_trims_both_ends_witness :
  Words.strip (Words.strip "  go ") = "go"%string /\
  Words.isspace "g" = false /\
  Words.strip (String (ascii_of_nat 10) "") = ""%string.
Proof.
  destruct (strip_trims_both_ends "  go ") as (_ & Hfirst & _ & Hidem & _).
  destruct (strip_trims_both_ends (String (ascii_of_nat 10) ""))
    as (_ & _ & _ & _ & Hblank).
  split_and!.
  - rewrite Hidem. reflexivity.
  - apply (Hfirst "g"%char "o"%string). reflexivity.
  - apply Hblank. compute_done.
Defined.

Lemma get_words_keeps_every_line_witness :
  Words._get_words demo_lines !! 1%nat = Some "go"%string /\
  Words._get_words demo_lines !! 2%nat = Some ""%string.
Proof.
  destruct (get_words_keeps_every_line demo_lines)
    as (_ & Hline & Hblank & _).
  split.
  - apply (Hline 1%nat ("  go " +:+ String (ascii_of_nat 10) "")%string).
    reflexivity.
  - apply Hblank. exists (String (ascii_of_nat 10) "").
    split; [reflexivity | compute_done].
Defined.

Lemma cache_changes_range_witness :
  _calc_cache_changes [] = Raise IndexError /\
  exists n, _calc_cache_changes [7; 0; 7] = Ok n /\ 1 <= n <= 3.
Proof.
  split.
  - apply (proj1 (cache_changes_range [])). reflexivity.
  - apply (proj2 (cache_changes_range [7; 0; 7])). discriminate.
Defined.

Lemma reward_range_witness :
  exists r, @_calc_reward demo_host demo_pair demo_won demo_old "go door"
            = Ok r /\ 8 - 5 - 106 <= r <= 8 - 5 + 102.
Proof.
  apply (@reward_range demo_host demo_pair demo_won demo_old "go door"%string).
  exact demo_pair_cache_ok.
Defined.

Lemma repeated_turns_escalate_witness :
  @_calc_reward demo_host
    (@feed demo_host demo_pair (replicate 7 demo_old))
    demo_old demo_old "look " = Ok (-5).
Proof.
  apply (@repeated_turns_escalate demo_host demo_pair (replicate 7 demo_old)
           "A room."%string "You are carrying nothing."%string
           demo_old demo_old "look "%string); try reflexivity.
  - exact demo_pair_cache_ok.
  - discriminate.
  - compute_done.
  - compute_done.
  - compute_done.
  - compute_done.
  - apply neutral_by_computation; reflexivity.
Defined.

Lemma blank_bad_action_always_punished_witness :
  @_calc_reward demo_host demo_pair demo_old demo_old "look " = Ok (-5) /\
  @_calc_reward blank_host blank_pair demo_old demo_old "look " = Ok (-6).
Proof.
  split; [reflexivity|].
  destruct (@blank_bad_action_always_punished blank_host blank_pair
              demo_old demo_old "look "%string)
    as (inv & des & Hi & Hd & Hr).
  - split; reflexivity.
  - apply list_elem_of_here.
  - vm_compute in Hi, Hd. injection Hi as <-. injection Hd as <-. exact Hr.
Defined.

Lemma shorter_verb_found_more_often_witness :
  _find_verb_in_list "o d" ["go door"; "take key"] = true.
Proof.
  destruct (shorter_verb_found_more_often "o d" "go door"
              ["go door"; "take key"]) as (Hfound & _).
  - by apply str_in_spec.
  - apply Hfound. reflexivity.
Defined.

Lemma verb_token_without_space_witness :
  find "look" " " = -1 /\ verb_token "look" = "loo"%string.
Proof.
  apply (verb_token_without_space "loo" "k").
  by apply str_in_false.
Defined.

Lemma verb_token_of_translation_witness :
  verb_token "go key" = "go"%string /\
  verb_token "pick up " = "pick"%string.
Proof.
  split.
  - destruct (@verb_token_of_translation demo_host demo_pair (Pair 1 2)
                "go" "go key") as (_ & Htoken & _).
    + exact demo_pair_reachable.
    + split; reflexivity.
    + reflexivity.
    + apply Htoken. by apply str_in_false.
  - destruct (@verb_token_of_translation blank_host blank_pair (Pair 2 0)
                "pick up" "pick up ") as (_ & _ & Hfirst).
    + exact blank_pair_reachable.
    + split; reflexivity.
    + reflexivity.
    + apply (Hfirst "pick" "up")%string; [reflexivity | by apply str_in_false].
Defined.


Lemma spec_actions_translate_witness :
  exists cmd, @_conv_to_cmd demo_host demo_flat (Flat 8) = Ok cmd.
Proof.
  apply (@spec_actions_translate demo_host demo_flat (Flat 8)).
  - exact demo_flat_reachable.
  - vm_compute. split; congruence.
Defined.


Lemma blank_verb_always_admissible_witness :
  verb_token " " = ""%string /\
  _find_verb_in_list (verb_token " ") ["go door"; "take key"] = true.
Proof.
  destruct (@blank_verb_always_admissible blank_host blank_pair 0 0
              " " ["go door"; "take key"])
    as (_ & Htoken & Hfound); try reflexivity.
  split; [exact Htoken | by apply Hfound].
Defined.

Lemma demo_started_reachable : @reachable demo_host demo_started.
Proof. eapply reach_reset; [exact demo_pair_reachable | reflexivity]. Qed.

Lemma step_failures_witness :
  @_step demo_host demo_pair (Pair 0 0) = Raise TypeError /\
  @_step demo_host demo_started (Pair 3 0) = Raise IndexError /\
  (exists env2 ts2,
     @_step demo_host demo_started (Pair 0 0) = Ok (env2, ts2)) /\
  @_step (umlaut_host 1) umlaut_started (Pair 0 0) = Raise UnicodeEncodeError.
Proof.
  split_and!.
  - destruct (@step_failures demo_host demo_pair (Pair 0 0))
      as [Hfresh _]; [exact demo_pair_reachable | reflexivity |].
    apply Hfresh. reflexivity.
  - destruct (@step_failures demo_host demo_started
                (Pair 3 0) demo_started_reachable eq_refl) as [_ Hrun].
    destruct Hrun as (g & Hg & Hbad & _); [by eexists|].
    apply Hbad. reflexivity.
  - destruct (@step_failures demo_host demo_started
                (Pair 0 0) demo_started_reachable eq_refl) as [_ Hrun].
    destruct Hrun as (g & Hg & _ & Hgood); [by eexists|].
    vm_compute in Hg. injection Hg as <-.
    destruct (Hgood "look "%string eq_refl) as [Hok _].
    apply Hok; reflexivity.
  - assert (Hreach : @reachable (umlaut_host 1) umlaut_started).
    { eapply reach_reset; [|reflexivity].
      apply (@reach_init (umlaut_host 1) "game.ulx" "verbs.txt" "objs.txt"
               "badact.txt" false false). reflexivity. }
    destruct (@step_failures (umlaut_host 1) umlaut_started
                (Pair 0 0) Hreach eq_refl) as [_ Hrun].
    destruct Hrun as (g & Hg & _ & Hgood); [by eexists|].
    vm_compute in Hg. injection Hg as <-.
    destruct (Hgood "look "%string eq_refl) as [_ Hraise].
    apply Hraise. left. reflexivity.
Defined.

Lemma episode_end_protocol_witness :
  (exists env2 ts2,
     @_step demo_host demo_started (Pair 0 0) = Ok (env2, ts2) /\
     step_type ts2 = MID /\ @_episode_ended demo_host env2 = false) /\
  (exists env' ts,
     @_step demo_host (@set_episode_ended demo_host demo_started true)
       (Pair 0 0) = Ok (env', ts) /\
     step_type ts = FIRST /\
     @_state demo_host env' = Some (demo_state 0 false "A room."
                                      "You are carrying nothing.") /\
     @curr_TWGym demo_host env' = Some 1).
Proof.
  split.
  - destruct (@_step demo_host demo_started (Pair 0 0))
      as [[env2 ts2]|e] eqn:Hs; [|by vm_compute in Hs].
    exists env2, ts2. split; [reflexivity|].
    destruct (@episode_end_protocol demo_host _ _ _ _ Hs) as [_ Hrun].
    destruct Hrun as (old & Hold & Hflag & Htype & _); [reflexivity|].
    vm_compute in Hold. injection Hold as <-.
    split; [exact Htype | exact Hflag].
  - destruct (@_step demo_host (@set_episode_ended demo_host demo_started true)
                (Pair 0 0)) as [[env' ts]|e] eqn:Hs; [|by vm_compute in Hs].
    exists env', ts. split; [reflexivity|].
    destruct (@episode_end_protocol demo_host _ _ _ _ Hs) as [Hended _].
    destruct Hended as (Htype & _ & _ & _ & Hg & Hst & _); [reflexivity|].
    split_and!; [exact Htype | exact Hst | exact Hg].
Defined.

Lemma win_reported_one_step_late_witness :
  exists env1 ts1 env2 ts2 env3 ts3,
    @_step winning_host winning_started (Pair 0 0) = Ok (env1, ts1) /\
    @_step winning_host env1 (Pair 0 0) = Ok (env2, ts2) /\
    @_step winning_host env2 (Pair 0 0) = Ok (env3, ts3) /\
    step_type ts1 = MID /\ step_type ts2 = LAST /\ step_type ts3 = FIRST /\
    @curr_TWGym winning_host env3 = Some 1.
Proof.
  destruct (@_step winning_host winning_started (Pair 0 0))
    as [[env1 ts1]|e] eqn:Hs1; [|by vm_compute in Hs1].
  destruct (@_step winning_host env1 (Pair 0 0))
    as [[env2 ts2]|e] eqn:Hs2;
    [|vm_compute in Hs1; injection Hs1 as <- <-; by vm_compute in Hs2].
  destruct (@_step winning_host env2 (Pair 0 0))
    as [[env3 ts3]|e] eqn:Hs3;
    [|vm_compute in Hs1; injection Hs1 as <- <-;
      vm_compute in Hs2; injection Hs2 as <- <-; by vm_compute in Hs3].
  exists env1, ts1, env2, ts2, env3, ts3.
  split; [reflexivity|]. split; [exact Hs2|]. split; [exact Hs3|].
  assert (Hnew : exists new_state,
            @_state winning_host env1 = Some new_state /\
            won new_state = true).
  { vm_compute in Hs1. injection Hs1 as <- <-. by eexists. }
  destruct Hnew as (new_state & Hnew & Hwon).
  edestruct (@win_reported_one_step_late winning_host winning_started env1
               (Pair 0 0) ts1) as (Hmid & _ & Hnext);
    [reflexivity | reflexivity | reflexivity | exact Hs1 | exact Hnew
    | exact Hwon |].
  destruct (Hnext _ _ _ Hs2) as (Hlast & _ & Hthird).
  destruct (Hthird _ _ _ Hs3) as (Hfirst & _ & _ & Hg & _).
  split_and!; [exact Hmid | exact Hlast | exact Hfirst | exact Hg].
Defined.

Lemma configuration_is_fixed_witness :
  @_list_verb demo_host demo_started = ["look"; "go"; "take"]%string /\
  exists env2 ts2,
    @_step demo_host demo_started (Pair 0 0) = Ok (env2, ts2) /\
    @_list_verb demo_host env2 = ["look"; "go"; "take"]%string.
Proof.
  destruct (@configuration_is_fixed demo_host demo_started
              demo_started_reachable)
    as (Hverb & _ & _ & _ & _ & Hstep).
  split; [exact Hverb|].
  destruct (@_step demo_host demo_started (Pair 0 0)) as [[env2 ts2]|e] eqn:Hs;
    [|by vm_compute in Hs].
  exists env2, ts2. split; [reflexivity|].
  destruct (Hstep _ _ _ Hs) as (_ & _ & _ & _ & _ & _ & Hsame & _).
  rewrite Hsame. exact Hverb.
Defined.
